(** * The 2048 game as a shallow embedding

    Three parts of the game are embedded, each as pure functions:
    - the engine ([engine.js], class [Game2048]), module [Game2048];
    - the storage manager ([storage.js], class [StorageManager]), module
      [StorageManager];
    - the handlers of the page that tie the two together ([app.js]), module
      [Game2048.App].

    The engine is a single JavaScript class whose methods mutate the fields
    of [this].  Every method is embedded as a pure function on a [Game]
    record (explicit state passing).  A method that calls callbacks or plays
    a sound additionally returns the list of events it emitted, in order.

    Modelling choices:
    - tile values and the score are JavaScript numbers that only ever hold
      integers; they are embedded as [Z];
    - a grid is an array of arrays, embedded as [list (list Z)]; [g !! i]
      is [g[i]];
    - [Math.random()] is an oracle: each call to [addRandomTile] receives
      a [rand] holding the outcome of its two draws;
    - the snapshots stored by [saveState] are deep copies and the only
      in-place write of the class ([addRandomTile]) targets a grid that was
      freshly built by [init], [moveLeft]/[rotateGrid] or popped from the
      history, so a snapshot never aliases the live grid and value
      semantics is faithful. *)

From stdpp Require Import base numbers list strings.

(** * The storage manager ([puzzle/js/storage.js], class [StorageManager])

    [localStorage] is seen through the one item the class uses,
    ['game2048Data']: [None] when [getItem] returns [null], and otherwise
    the object that [JSON.parse] gives back, which is the object last passed
    to [JSON.stringify] by [saveData] (numbers and arrays of strings survive
    the round trip).  Every method is a function of that item. *)
Module StorageManager.

Record Data := mkData {
  bestScore : Z;
  gamesPlayed : Z;
  gamesWon : Z;
  achievements : list string
}.

Abbreviation Store := (option Data).

(** The object [loadData] returns when the item is missing. *)
Definition defaults : Data := mkData 0 0 0 [].

Definition loadData (ls : Store) : Data :=
  match ls with
  | Some data => data
  | None => defaults
  end.

Definition saveData (data : Data) : Store := Some data.

(** [x || 0] on a number. *)
Definition or_zero (x : Z) : Z := if (x =? 0)%Z then 0%Z else x.

Definition getBestScore (ls : Store) : Z := or_zero (bestScore (loadData ls)).

(** The store afterwards and the boolean returned. *)
Definition updateBestScore (score : Z) (ls : Store) : Store * bool :=
  let data := loadData ls in
  if (bestScore data <? score)%Z
  then (saveData (mkData score (gamesPlayed data) (gamesWon data) (achievements data)),
        true)
  else (ls, false).

Definition incrementGamesPlayed (ls : Store) : Store :=
  let data := loadData ls in
  saveData (mkData (bestScore data) (gamesPlayed data + 1) (gamesWon data)
                   (achievements data)).

Definition incrementGamesWon (ls : Store) : Store :=
  let data := loadData ls in
  saveData (mkData (bestScore data) (gamesPlayed data) (gamesWon data + 1)
                   (achievements data)).

(** [{ gamesPlayed, gamesWon }] *)
Definition getStatistics (ls : Store) : Z * Z :=
  let data := loadData ls in
  (or_zero (gamesPlayed data), or_zero (gamesWon data)).

(** [achievements.includes(achievementId)] *)
Definition includes_id (ids : list string) (achievementId : string) : bool :=
  existsb (fun id => bool_decide (id = achievementId)) ids.

Definition unlockAchievement (achievementId : string) (ls : Store) : Store * bool :=
  let data := loadData ls in
  if negb (includes_id (achievements data) achievementId)
  then (saveData (mkData (bestScore data) (gamesPlayed data) (gamesWon data)
                         (achievements data ++ [achievementId])),
        true)
  else (ls, false).

Definition getAchievements (ls : Store) : list string := achievements (loadData ls).

(** [localStorage.removeItem(this.STORAGE_KEY)] *)
Definition clearData (ls : Store) : Store := None.

(** ** Sequences of calls *)

Inductive call :=
| UpdateBestScore (score : Z)
| IncrementGamesPlayed
| IncrementGamesWon
| UnlockAchievement (achievementId : string)
| ClearData.

Definition apply_call (c : call) (ls : Store) : Store :=
  match c with
  | UpdateBestScore score => (updateBestScore score ls).1
  | IncrementGamesPlayed => incrementGamesPlayed ls
  | IncrementGamesWon => incrementGamesWon ls
  | UnlockAchievement id => (unlockAchievement id ls).1
  | ClearData => clearData ls
  end.

Definition apply_calls (cs : list call) (ls : Store) : Store :=
  foldl (fun ls c => apply_call c ls) ls cs.

Definition is_clear (c : call) : bool :=
  match c with ClearData => true | _ => false end.

(** The scores passed to [updateBestScore] in a sequence of calls. *)
Definition scores_of (cs : list call) : list Z :=
  omap (fun c => match c with UpdateBestScore s => Some s | _ => None end) cs.

(** How many calls of a sequence satisfy [p]. *)
Definition count_calls (p : call -> bool) (cs : list call) : Z :=
  Z.of_nat (length (List.filter p cs)).

Definition is_played (c : call) : bool :=
  match c with IncrementGamesPlayed => true | _ => false end.

Definition is_won (c : call) : bool :=
  match c with IncrementGamesWon => true | _ => false end.

End StorageManager.

(** * The engine ([engine.js], class [Game2048]) *)
Module Game2048.

(** The four strings accepted by [rotateGrid]'s [switch]. *)
Inductive direction := Left | Right | Up | Down.

Abbreviation Grid := (list (list Z)).

(** An entry of [history]: [{ grid, score }]. *)
Record Snapshot := mkSnapshot { snap_grid : Grid; snap_score : Z }.

(** The fields of [Game2048] set by the constructor.  A callback field holds
    [true] when a function is installed and [false] when it is [null]. *)
Record Game := mkGame {
  size : nat;
  grid : Grid;
  score : Z;
  moved : bool;
  won : bool;
  over : bool;
  history : list Snapshot;
  maxHistorySize : nat;
  soundEnabled : bool;
  onUpdate : bool;
  onWin : bool;
  onGameOver : bool
}.

Definition set_grid (g : Grid) (st : Game) : Game :=
  mkGame (size st) g (score st) (moved st) (won st) (over st) (history st)
         (maxHistorySize st) (soundEnabled st) (onUpdate st) (onWin st) (onGameOver st).
Definition set_score (s : Z) (st : Game) : Game :=
  mkGame (size st) (grid st) s (moved st) (won st) (over st) (history st)
         (maxHistorySize st) (soundEnabled st) (onUpdate st) (onWin st) (onGameOver st).
Definition set_moved (b : bool) (st : Game) : Game :=
  mkGame (size st) (grid st) (score st) b (won st) (over st) (history st)
         (maxHistorySize st) (soundEnabled st) (onUpdate st) (onWin st) (onGameOver st).
Definition set_won (b : bool) (st : Game) : Game :=
  mkGame (size st) (grid st) (score st) (moved st) b (over st) (history st)
         (maxHistorySize st) (soundEnabled st) (onUpdate st) (onWin st) (onGameOver st).
Definition set_over (b : bool) (st : Game) : Game :=
  mkGame (size st) (grid st) (score st) (moved st) (won st) b (history st)
         (maxHistorySize st) (soundEnabled st) (onUpdate st) (onWin st) (onGameOver st).
Definition set_history (h : list Snapshot) (st : Game) : Game :=
  mkGame (size st) (grid st) (score st) (moved st) (won st) (over st) h
         (maxHistorySize st) (soundEnabled st) (onUpdate st) (onWin st) (onGameOver st).

(** What the engine does to the outside world. *)
Inductive sound := SndMove | SndMerge.

Inductive update_info :=
| InfoMerged (merged : list (nat * Z))   (* [{ merged }], entries [{ row, value }] *)
| InfoUndo.                              (* [{ undo: true }] *)

Inductive event :=
| EvSound (s : sound)
| EvUpdate (g : Grid) (s : Z) (info : update_info)
| EvWin
| EvGameOver (s : Z).

(** The two draws of one [addRandomTile] call: [rnd_idx] stands for
    [Math.floor(Math.random() * emptyCells.length)] (reduced modulo the
    length, the draw being below it), [rnd_two] for [Math.random() < 0.9]. *)
Record rand := mkRand { rnd_idx : nat; rnd_two : bool }.

(** ** Grid access *)

(** [g[i][j]], [None] standing for [undefined]. *)
Definition cell (g : Grid) (i j : nat) : option Z :=
  match g !! i with
  | Some row => row !! j
  | None => None
  end.

(** ** [transpose] and [rotateGrid] *)

(** [grid[0].map((_, colIndex) => grid.map(row => row[colIndex]))].
    On a grid without rows JavaScript raises a [TypeError] and in a ragged
    grid [row[colIndex]] may be [undefined]; the engine only ever holds
    [size] x [size] grids, [size = 4], where neither happens. *)
Definition transpose (g : Grid) : Grid :=
  match g with
  | [] => []
  | row0 :: _ =>
      map (fun colIndex => map (fun row => nth colIndex row 0%Z) g)
          (seq 0 (length row0))
  end.

(** [rotateGrid(grid, direction, reverse = false)]: the body never reads
    [reverse]. *)
Definition rotateGrid (g : Grid) (d : direction) (reverse : bool) : Grid :=
  match d with
  | Left => g
  | Right => map (fun row => rev row) g
  | Up => transpose g
  | Down => map (fun row => rev row) (transpose g)
  end.

(** ** [arraysEqual] and [moveLeft] *)

(** [a.length === b.length && a.every((val, index) => val === b[index])]. *)
Definition arraysEqual (a b : list Z) : bool :=
  Nat.eqb (length a) (length b)
  && forallb (fun iv : nat * Z => bool_decide (b !! iv.1 = Some iv.2))
             (imap pair a).

(** The result of scanning one compacted row. *)
Record RowScan := mkRowScan {
  scan_row : list Z;       (* [newRow] before padding *)
  scan_score : Z;          (* what the row added to [score] *)
  scan_merged : list Z;    (* the [value]s pushed on [merged] *)
  scan_moved : bool        (* whether a merge set [this.moved] *)
}.

(** The [for] loop over [nonZero]: at index [i], if a next element exists
    and is equal, push the double and skip both, else push [nonZero[i]]. *)
Fixpoint merge_scan (nonZero : list Z) : RowScan :=
  match nonZero with
  | [] => mkRowScan [] 0 [] false
  | a :: tl =>
      match tl with
      | b :: rest =>
          if (a =? b)%Z then
            let r := merge_scan rest in
            let mergedValue := (a * 2)%Z in
            mkRowScan (mergedValue :: scan_row r) (mergedValue + scan_score r)
                      (mergedValue :: scan_merged r) true
          else
            let r := merge_scan tl in
            mkRowScan (a :: scan_row r) (scan_score r) (scan_merged r) (scan_moved r)
      | [] => mkRowScan [a] 0 [] false
      end
  end.

(** [while (newRow.length < this.size) newRow.push(0)]. *)
Definition pad (n : nat) (newRow : list Z) : list Z :=
  newRow ++ replicate (n - length newRow) 0%Z.

(** What [moveLeft] returns, together with whether it set [this.moved]. *)
Record MoveResult := mkMoveResult {
  res_grid : Grid;
  res_score : Z;
  res_merged : list (nat * Z);
  res_moved : bool
}.

(** The callback of [grid.map((row, rowIndex) => ...)] on one row. *)
Definition moveLeft_row (n : nat) (rowIndex : nat) (row : list Z) : MoveResult :=
  let nonZero := filter (fun val => val ≠ 0%Z) row in
  let r := merge_scan nonZero in
  let newRow := pad n (scan_row r) in
  mkMoveResult [newRow] (scan_score r)
               (map (fun v => (rowIndex, v)) (scan_merged r))
               (scan_moved r || negb (arraysEqual row newRow)).

(** [grid.map] from row [rowIndex] on, accumulating [score], [merged] and
    [this.moved] in row order. *)
Fixpoint moveLeft_from (n : nat) (rowIndex : nat) (rows : Grid) : MoveResult :=
  match rows with
  | [] => mkMoveResult [] 0 [] false
  | row :: rest =>
      let r := moveLeft_row n rowIndex row in
      let rs := moveLeft_from n (S rowIndex) rest in
      mkMoveResult (res_grid r ++ res_grid rs) (res_score r + res_score rs)
                   (res_merged r ++ res_merged rs) (res_moved r || res_moved rs)
  end.

Definition moveLeft (n : nat) (g : Grid) : MoveResult := moveLeft_from n 0 g.

(** ** [hasValue], [isGameOver] *)

(** [row.includes(value)] *)
Definition includes (row : list Z) (value : Z) : bool :=
  existsb (fun v => (v =? value)%Z) row.

(** [this.grid.some(row => row.includes(value))] *)
Definition hasValue (g : Grid) (value : Z) : bool :=
  existsb (fun row => includes row value) g.

(** The body of the inner loop of [isGameOver]: [true] when it returns
    [false] at [(i, j)]. *)
Definition can_merge_at (n : nat) (g : Grid) (i j : nat) : bool :=
  (bool_decide (j < n - 1) && bool_decide (cell g i j = cell g i (j + 1)))
  || (bool_decide (i < n - 1) && bool_decide (cell g i j = cell g (i + 1) j)).

Definition isGameOver (n : nat) (g : Grid) : bool :=
  if hasValue g 0 then false
  else negb (existsb (fun i => existsb (fun j => can_merge_at n g i j) (seq 0 n))
                     (seq 0 n)).

(** ** [addRandomTile] *)

(** The cells pushed on [emptyCells], in the order of the two loops. *)
Definition emptyCells (n : nat) (g : Grid) : list (nat * nat) :=
  flat_map (fun i =>
    flat_map (fun j => if bool_decide (cell g i j = Some 0%Z) then [(i, j)] else [])
             (seq 0 n))
    (seq 0 n).

(** [grid[row][col] = v] *)
Definition set_cell (g : Grid) (row col : nat) (v : Z) : Grid :=
  alter (fun r => <[col := v]> r) row g.

Definition addRandomTile_grid (n : nat) (r : rand) (g : Grid) : Grid :=
  let cells := emptyCells n g in
  match cells !! (rnd_idx r `mod` length cells) with
  | None => g                            (* [emptyCells.length === 0] *)
  | Some (row, col) => set_cell g row col (if rnd_two r then 2 else 4)%Z
  end.

Definition addRandomTile (r : rand) (st : Game) : Game :=
  set_grid (addRandomTile_grid (size st) r (grid st)) st.

(** ** [init] and the constructor *)

Definition init (r1 r2 : rand) (st : Game) : Game :=
  let st := set_grid (replicate (size st) (replicate (size st) 0%Z)) st in
  let st := set_score 0 st in
  let st := set_won false st in
  let st := set_over false st in
  let st := addRandomTile r1 st in
  addRandomTile r2 st.

Definition constructor (r1 r2 : rand) : Game :=
  init r1 r2 (mkGame 4 [] 0 false false false [] 1 true false false false).

(** ** [saveState] and [undo] *)

(** [history] is kept oldest first: [push] appends, [shift] drops the head,
    [pop] removes the last element. *)
Definition saveState (st : Game) : Game :=
  let h := history st ++ [mkSnapshot (grid st) (score st)] in
  set_history (if bool_decide (maxHistorySize st < length h) then tail h else h) st.

Definition playSound (st : Game) (s : sound) : list event :=
  if soundEnabled st then [EvSound s] else [].

Definition fire (installed : bool) (e : event) : list event :=
  if installed then [e] else [].

Definition undo (st : Game) : Game * bool * list event :=
  match last (history st) with
  | None => (st, false, [])
  | Some state =>
      let st := set_history (removelast (history st)) st in
      let st := set_grid (snap_grid state) st in
      let st := set_score (snap_score state) st in
      let st := set_over false st in
      (st, true, fire (onUpdate st) (EvUpdate (grid st) (score st) InfoUndo))
  end.

(** ** [move] *)

(** The block guarded by [if (this.moved)]. *)
Definition after_moved (r : rand) (merged : list (nat * Z)) (st : Game)
  : Game * list event :=
  let st := addRandomTile r st in
  let ev := playSound st SndMove in
  let ev := ev ++ fire (onUpdate st) (EvUpdate (grid st) (score st) (InfoMerged merged)) in
  let '(st, ev) :=
    if negb (won st) && hasValue (grid st) 2048
    then (set_won true st, ev ++ fire (onWin st) EvWin)
    else (st, ev) in
  if isGameOver (size st) (grid st)
  then (set_over true st, ev ++ fire (onGameOver st) (EvGameOver (score st)))
  else (st, ev).

(** [move(direction)] from [this.saveState()] up to, and without, the test
    [if (this.moved)]: the state, the [merged] list and the events so far. *)
Definition slide (d : direction) (st : Game) : Game * list (nat * Z) * list event :=
  let st := saveState st in
  let st := set_moved false st in
  let rotatedGrid := rotateGrid (grid st) d false in
  let res := moveLeft (size st) rotatedGrid in
  let st := set_moved (moved st || res_moved res) st in
  let st := set_grid (rotateGrid (res_grid res) d true) st in
  if (0 <? res_score res)%Z
  then (set_score (score st + res_score res) st, res_merged res, playSound st SndMerge)
  else (st, res_merged res, []).

(** [move(direction)]; the result is [None] for the bare [return] taken
    when the game is over, and [Some this.moved] otherwise. *)
Definition move (d : direction) (r : rand) (st : Game)
  : Game * option bool * list event :=
  if over st then (st, None, [])
  else
    let '(st, merged, ev) := slide d st in
    if moved st then
      let '(st, ev') := after_moved r merged st in
      (st, Some (moved st), ev ++ ev')
    else (st, Some (moved st), ev).

(** ** Sessions: sequences of calls made by the application *)

Inductive op := OpMove (d : direction) (r : rand) | OpUndo.

Definition step (o : op) (st : Game) : Game * list event :=
  match o with
  | OpMove d r => let '(st, _, ev) := move d r st in (st, ev)
  | OpUndo => let '(st, _, ev) := undo st in (st, ev)
  end.

Fixpoint run (ops : list op) (st : Game) : Game * list event :=
  match ops with
  | [] => (st, [])
  | o :: ops =>
      let '(st, ev) := step o st in
      let '(st, evs) := run ops st in
      (st, ev ++ evs)
  end.

(** The states a [new Game2048()] can be in after any calls of [move] and
    [undo], and of [init] (the "new game" button). *)
Inductive reachable : Game -> Prop :=
| reach_new r1 r2 : reachable (constructor r1 r2)
| reach_step o st : reachable st -> reachable (step o st).1
| reach_init r1 r2 st : reachable st -> reachable (init r1 r2 st).

(** ** Predicates of the specification *)

(** A cell is empty or holds a power of two that is at least 2. *)
Definition tile_ok (v : Z) : Prop := v = 0%Z \/ exists k : Z, (1 <= k)%Z /\ v = (2 ^ k)%Z.

Definition grid_ok (g : Grid) : Prop := Forall (Forall tile_ok) g.

(** The same test, computed. *)
Definition tile_okb (v : Z) : bool :=
  (v =? 0)%Z || ((2 <=? v)%Z && (v =? 2 ^ Z.log2 v)%Z).

(** [g] has [n] rows of [m] cells. *)
Definition rect (n m : nat) (g : Grid) : Prop :=
  length g = n /\ Forall (fun row => length row = m) g.

Definition nonneg (g : Grid) : Prop := Forall (Forall (fun v => (0 <= v)%Z)) g.

(** The sum of the [value] fields of a [merged] list. *)
Definition merged_sum (merged : list (nat * Z)) : Z :=
  foldr (fun e acc => (e.2 + acc)%Z) 0%Z merged.

Definition is_win (e : event) : bool :=
  match e with EvWin => true | _ => false end.

(** How many times [onWin] was called in a trace. *)
Definition wins (ev : list event) : nat := length (List.filter is_win ev).

(** What [moveLeft] returns inside [move(d)] called on [st]. *)
Definition move_result (d : direction) (st : Game) : MoveResult :=
  moveLeft (size st) (rotateGrid (grid st) d false).

(** The snapshot [saveState] pushes. *)
Definition snapshot_of (st : Game) : Snapshot := mkSnapshot (grid st) (score st).

(** ** Concrete states used in the examples below *)

(** The engine right after construction when the two spawns fall on the
    first two cells of the bottom row, with a 2 and a 4:
    grid [[0,0,0,0],[0,0,0,0],[0,0,0,0],[2,4,0,0]]. *)
Definition start_game : Game := constructor (mkRand 12 true) (mkRand 12 false).

(** [grid start_game] turned by 180 degrees. *)
Definition start_grid_turned : Grid :=
  [[0; 0; 4; 2]; [0; 0; 0; 0]; [0; 0; 0; 0]; [0; 0; 0; 0]]%Z.

(** The same with two 2s: grid [[0,0,0,0],[0,0,0,0],[0,0,0,0],[2,2,0,0]]. *)
Definition pair_game : Game := constructor (mkRand 12 true) (mkRand 12 true).

(** Draws that pick the first empty cell and the value 2. *)
Definition first_two : rand := mkRand 0 true.

(** An engine holding [g], with the three callbacks installed as the
    application does. *)
Definition game_of (g : Grid) : Game :=
  mkGame 4 g 0 false false false [] 1 true true true true.

(** One move away from the winning tile. *)
Definition near_win_game : Game :=
  game_of [[1024; 1024; 0; 0]; [0; 0; 0; 0]; [0; 0; 0; 0]; [0; 0; 2; 0]]%Z.

(** A full board without equal neighbours, and one with the pair of 2s
    at the start of the first row. *)
Definition full_grid : Grid :=
  [[2; 4; 2; 4]; [4; 2; 4; 2]; [2; 4; 2; 4]; [4; 2; 4; 2]]%Z.
Definition full_grid_pair : Grid :=
  [[2; 2; 8; 4]; [4; 8; 4; 2]; [2; 4; 2; 4]; [4; 2; 4; 2]]%Z.

(** The invariant behind the data model: the live grid and every stored
    snapshot hold only empty cells and powers of two. *)
Definition tiles_inv (st : Game) : Prop :=
  grid_ok (grid st) /\ Forall (fun s => grid_ok (snap_grid s)) (history st).

(** The shape the engine keeps: [size] is 4 and the live grid and every
    stored snapshot are 4 x 4, so that [transpose] never meets a grid
    without rows or a short row. *)
Definition shape_inv (st : Game) : Prop :=
  size st = 4 /\ rect 4 4 (grid st)
  /\ Forall (fun s => rect 4 4 (snap_grid s)) (history st).

(** How many more times [onWin] can fire: once while [won] is false. *)
Definition wins_left (st : Game) : nat := if won st then 0 else 1.

(** A session with moves in the four directions and an undo. *)
Definition win_session : list op :=
  [OpMove Right (mkRand 0 true); OpUndo; OpMove Left (mkRand 3 false);
   OpMove Up (mkRand 1 true); OpMove Down (mkRand 2 true)].

(** The number of non-zero cells. *)
Definition tiles (g : Grid) : nat :=
  foldr (fun row acc => length (filter (fun val => val ≠ 0%Z) row) + acc) 0 g.

(** ** More of the engine: [getMaxTile] and measures of a grid *)

(** [Math.max(...this.grid.flat())]; [None] stands for the [-Infinity]
    that [Math.max()] returns without arguments. *)
Definition getMaxTile (g : Grid) : option Z :=
  foldr (fun v acc => Some (match acc with None => v | Some m => Z.max v m end))
        None (concat g).

(** The sum of all cells. *)
Definition grid_sum (g : Grid) : Z := foldr Z.add 0%Z (concat g).

(** Columns [0 .. m-1] of [g], as [transpose] builds them. *)
Definition columns (m : nat) (g : Grid) : Grid :=
  map (fun colIndex => map (fun row => nth colIndex row 0%Z) g) (seq 0 m).

(** A row as [moveLeft] leaves it: its tiles first, then only zeros. *)
Definition compacted (row : list Z) : Prop :=
  exists nz k, row = nz ++ replicate k 0%Z /\ Forall (fun v => v ≠ 0%Z) nz.

Definition is_move (o : op) : bool :=
  match o with OpMove _ _ => true | OpUndo => false end.

(** A 3 x 2 grid. *)
Definition small_grid : Grid := [[1; 2]; [3; 4]; [5; 6]]%Z.

(** The states of one game session: a fresh engine followed by calls of
    [move] and [undo] only, without a second [init]. *)
Inductive session : Game -> Prop :=
| session_new r1 r2 : session (constructor r1 r2)
| session_step o st : session st -> session (step o st).1.

(** No snapshot and not the live grid holds the value [v]. *)
Definition never_held (v : Z) (st : Game) : Prop :=
  hasValue (grid st) v = false
  /\ Forall (fun s => hasValue (snap_grid s) v = false) (history st).

(** At least two tiles on the live grid and on every snapshot. *)
Definition two_tiles_inv (st : Game) : Prop :=
  2 <= tiles (grid st) /\ Forall (fun s => 2 <= tiles (snap_grid s)) (history st).

(** Whether [move(d)] would set [this.moved] on the grid [g]. *)
Definition can_move (n : nat) (g : Grid) (d : direction) : bool :=
  res_moved (moveLeft n (rotateGrid g d false)).

(** No two cells next to each other in the list are equal. *)
Definition no_equal_neighbours (l : list Z) : Prop :=
  forall l1 x y l2, l = l1 ++ x :: y :: l2 -> x ≠ y.

(** ** The application around the engine ([app.js])

    The page keeps one engine, one storage manager and a move counter, and
    reacts to the engine's callbacks.  What the handlers write to the
    document is left out; of the document only the two overlays matter,
    through their [hidden] class, which the key handler reads.  The
    callbacks run while [move] or [undo] is still executing, but the only
    engine fields they read ([grid], through [getMaxTile]) have their final
    value by then, so they are applied to the events afterwards, in
    order. *)
Module App.
Import StorageManager.

Record App := mkApp {
  game : Game;
  storage : Store;
  moveCount : Z;
  gameOverHidden : bool;   (* [gameOverOverlay.classList.contains('hidden')] *)
  winHidden : bool         (* [winOverlay.classList.contains('hidden')] *)
}.

Definition set_game (g : Game) (a : App) : App :=
  mkApp g (storage a) (moveCount a) (gameOverHidden a) (winHidden a).
Definition set_storage (ls : Store) (a : App) : App :=
  mkApp (game a) ls (moveCount a) (gameOverHidden a) (winHidden a).
Definition set_moveCount (n : Z) (a : App) : App :=
  mkApp (game a) (storage a) n (gameOverHidden a) (winHidden a).
Definition set_gameOverHidden (b : bool) (a : App) : App :=
  mkApp (game a) (storage a) (moveCount a) b (winHidden a).
Definition set_winHidden (b : bool) (a : App) : App :=
  mkApp (game a) (storage a) (moveCount a) (gameOverHidden a) b.

(** [updateScore(score)] *)
Definition updateScore (score : Z) (a : App) : App :=
  if (getBestScore (storage a) <? score)%Z
  then set_storage (updateBestScore score (storage a)).1 a
  else a.

(** [unlockAchievement(achievementId)] of the page. *)
Definition unlock (achievementId : string) (a : App) : App :=
  set_storage (StorageManager.unlockAchievement achievementId (storage a)).1 a.

(** [maxTile >= bound], [maxTile] being [-Infinity] on a grid without
    cells. *)
Definition maxTile_ge (maxTile : option Z) (bound : Z) : bool :=
  match maxTile with
  | Some m => (bound <=? m)%Z
  | None => false
  end.

Definition checkAchievements (a : App) : App :=
  let maxTile := getMaxTile (grid (game a)) in
  let a := if maxTile_ge maxTile 2048 then unlock "first-win" a else a in
  let a := if maxTile_ge maxTile 2048 && (moveCount a <=? 100)%Z
           then unlock "speed-demon" a else a in
  let a := if maxTile_ge maxTile 4096 then unlock "high-roller" a else a in
  if (500 <=? moveCount a)%Z then unlock "survivor" a else a.

(** The three callbacks the page installs, by the event they answer. *)
Definition handle (a : App) (e : event) : App :=
  match e with
  | EvSound _ => a
  | EvUpdate _ score info =>
      let a := match info with
               | InfoUndo => a
               | InfoMerged _ => set_moveCount (moveCount a + 1) a
               end in
      updateScore score a
  | EvWin =>
      let a := set_winHidden false a in
      let a := set_storage (incrementGamesWon (storage a)) a in
      checkAchievements a
  | EvGameOver score =>
      let a := set_gameOverHidden false a in
      let a := set_storage (updateBestScore score (storage a)).1 a in
      checkAchievements a
  end.

(** The [keydown] handler on an arrow key. *)
Definition keydown (d : direction) (r : rand) (a : App) : App :=
  if gameOverHidden a && winHidden a
  then let '(g, _, evs) := move d r (game a) in
       foldl handle (set_game g a) evs
  else a.

(** The click handler of the undo button. *)
Definition undoClick (a : App) : App :=
  let '(g, ok, evs) := undo (game a) in
  let a := foldl handle (set_game g a) evs in
  if ok then set_moveCount (Z.max 0 (moveCount a - 1)) a else a.

(** [startNewGame] *)
Definition startNewGame (r1 r2 : rand) (a : App) : App :=
  let a := set_game (init r1 r2 (game a)) a in
  let a := set_moveCount 0 a in
  let a := set_gameOverHidden true a in
  let a := set_winHidden true a in
  let a := updateScore 0 a in
  set_storage (incrementGamesPlayed (storage a)) a.

(** The click handler of the continue button. *)
Definition continueClick (a : App) : App := set_winHidden true a.

(** The user's actions that reach the engine. *)
Inductive action :=
| KeyDown (d : direction) (r : rand)
| UndoClick
| NewGame (r1 r2 : rand)
| Continue.

Definition act (a : App) (x : action) : App :=
  match x with
  | KeyDown d r => keydown d r a
  | UndoClick => undoClick a
  | NewGame r1 r2 => startNewGame r1 r2 a
  | Continue => continueClick a
  end.

(** The callbacks are installed on the engine. *)
Definition wired (a : App) : Prop :=
  onUpdate (game a) = true /\ onWin (game a) = true /\ onGameOver (game a) = true.

(** The stored best score is not below the score of the engine, nor below
    the score of any snapshot. *)
Definition best_covers (a : App) : Prop :=
  (score (game a) <= getBestScore (storage a))%Z
  /\ Forall (fun s => (snap_score s <= getBestScore (storage a))%Z)
            (history (game a)).

(** What unlocking achievements keeps: everything but the list of
    achievements, which can only grow. *)
Definition same_but_achievements (a a' : App) : Prop :=
  game a' = game a /\ moveCount a' = moveCount a
  /\ gameOverHidden a' = gameOverHidden a /\ winHidden a' = winHidden a
  /\ getBestScore (storage a') = getBestScore (storage a)
  /\ gamesWon (loadData (storage a')) = gamesWon (loadData (storage a))
  /\ (forall x, In x (getAchievements (storage a)) ->
                In x (getAchievements (storage a'))).

(** The page on a fresh board [[0,0,0,0],[0,0,0,0],[0,0,0,0],[2,2,0,0]],
    with an empty store and no move counted yet. *)
Definition pair_app : App :=
  mkApp (game_of [[0; 0; 0; 0]; [0; 0; 0; 0]; [0; 0; 0; 0]; [2; 2; 0; 0]]%Z)
        None 0 true true.

(** The page on the board [near_win_game], with an empty store. *)
Definition near_win_app : App := mkApp near_win_game None 7 true true.

End App.

(** ** Two longer sessions *)

(** Fourteen moves from [start_game], none of which merges, that fill the
    board with the checkerboard [[4,2,4,2],[2,4,2,4],[4,2,4,2],[2,4,2,4]]. *)
Definition stuck_session : list op :=
  [OpMove Right (mkRand 0 true);
   OpMove Left (mkRand 0 false);
   OpMove Right (mkRand 0 false);
   OpMove Left (mkRand 0 true);
   OpMove Right (mkRand 0 true);
   OpMove Left (mkRand 0 false);
   OpMove Right (mkRand 0 false);
   OpMove Left (mkRand 1 true);
   OpMove Right (mkRand 0 true);
   OpMove Left (mkRand 0 false);
   OpMove Right (mkRand 0 false);
   OpMove Left (mkRand 0 true);
   OpMove Right (mkRand 0 false);
   OpMove Right (mkRand 0 true)].

(** A call of [move] packed into a number: the direction in the two high
    bits, [rnd_two] in the next one, [rnd_idx] in the low four. *)
Definition op_of_code (c : nat) : op :=
  OpMove (match c / 32 with 0 => Left | 1 => Right | 2 => Up | _ => Down end)
         (mkRand (c `mod` 16) (bool_decide (16 <= c `mod` 32))).

(** The moves of a game played from [start_game] until the 2048 tile
    appears, packed by [op_of_code]. *)
Definition winning_codes : list nat :=
  [35; 68; 96; 0; 0; 1; 0; 0; 0; 1; 0; 0; 0; 3; 66; 64; 0; 0; 1; 0; 0; 0; 0;
   52; 64; 0; 0; 0; 96; 96; 0; 33; 64; 33; 80; 0; 0; 1; 64; 0; 0; 96; 32; 64;
   96; 0; 52; 64; 34; 64; 0; 0; 0; 96; 96; 0; 33; 64; 33; 80; 0; 96; 97; 39;
   67; 80; 36; 64; 0; 0; 0; 64; 0; 34; 64; 0; 0; 0; 96; 96; 0; 33; 64; 33;
   80; 0; 0; 0; 65; 64; 52; 64; 0; 96; 99; 41; 64; 32; 32; 36; 64; 0; 0; 0;
   96; 96; 0; 34; 64; 32; 32; 0; 64; 34; 64; 36; 64; 0; 96; 98; 40; 64; 32;
   36; 40; 64; 32; 32; 32; 32; 32; 32; 33; 80; 0; 0; 1; 64; 0; 0; 96; 32; 64;
   96; 0; 52; 64; 34; 64; 0; 0; 0; 96; 96; 0; 33; 64; 33; 80; 0; 96; 97; 39;
   67; 80; 36; 64; 0; 0; 0; 96; 96; 0; 34; 64; 32; 32; 0; 64; 34; 64; 36; 64;
   0; 96; 98; 40; 64; 32; 36; 40; 64; 32; 32; 32; 32; 32; 32; 33; 80; 0; 0;
   0; 65; 64; 52; 64; 0; 96; 99; 41; 64; 32; 32; 36; 64; 0; 96; 98; 40; 64;
   32; 36; 40; 64; 32; 32; 32; 32; 32; 32; 33; 80; 0; 96; 97; 39; 67; 80; 36;
   40; 64; 32; 32; 32; 32; 32; 32; 33; 64; 32; 32; 32; 32; 32; 32; 32; 32;
   32; 32; 33; 64; 64; 1; 32; 36; 64; 0; 0; 1; 0; 0; 1; 64; 34; 64; 0; 96;
   99; 41; 64; 0; 0; 0; 96; 96; 0; 34; 64; 32; 32; 0; 64; 34; 64; 36; 64; 0;
   0; 0; 96; 96; 0; 34; 64; 32; 32; 0; 64; 34; 64; 36; 64; 0; 96; 98; 40; 64;
   32; 36; 40; 64; 32; 32; 32; 32; 32; 32; 33; 80; 0; 0; 0; 65; 64; 52; 64;
   0; 96; 99; 41; 64; 32; 32; 36; 64; 0; 96; 98; 40; 64; 32; 36; 40; 64; 32;
   32; 32; 32; 32; 32; 33; 80; 0; 96; 97; 39; 67; 80; 36; 40; 64; 32; 32; 32;
   32; 32; 32; 33; 64; 32; 32; 32; 32; 32; 32; 32; 32; 32; 32; 33; 64; 64; 1;
   32; 36; 64; 0; 0; 0; 32; 33; 98; 96; 32; 0; 64; 34; 64; 36; 64; 0; 96; 98;
   40; 64; 32; 36; 40; 64; 32; 32; 32; 32; 32; 32; 33; 80; 0; 96; 97; 39; 67;
   80; 36; 40; 64; 32; 32; 32; 32; 32; 32; 33; 64; 32; 32; 32; 32; 32; 32;
   32; 32; 32; 32; 33; 64; 64; 1; 32; 36; 64; 0; 32; 97; 96; 32; 32; 32; 32;
   32; 32; 32; 33; 64; 64; 1; 32; 32; 32; 32; 32; 32; 32; 1; 32; 3; 66; 32;
   0; 0; 64; 0; 0; 32; 1; 64; 32; 32; 32; 32; 32; 1; 32; 64; 32; 1; 32; 3;
   65; 0; 1; 36; 64; 32; 0; 65; 32; 1; 32; 69; 2; 2; 64; 3; 65; 1; 32; 32;
   32; 0; 80; 0; 0].

Definition winning_session : list op := map op_of_code winning_codes.

(** ** The orientation transform *)

Section Rotate.

Lemma map_nth_seq {A} (l : list A) (d : A) :
  map (fun i => nth i l d) (seq 0 (length l)) = l.
Proof.
  induction l as [|x l IH]; [done|].
  cbn [length seq map nth]. f_equal.
  rewrite <- seq_shift, map_map. exact IH.
Qed.

Lemma rect_cons n m row (g : Grid) :
  rect (S n) m (row :: g) <-> length row = m /\ rect n m g.
Proof.
  unfold rect. cbn [length]. rewrite Forall_cons. split; intros; intuition lia.
Qed.

Lemma transpose_rect n m (g : Grid) :
  rect (S n) m g -> rect m (S n) (transpose g).
Proof.
  intros [Hl Hr]. destruct g as [|row0 g]; [done|].
  apply Forall_cons in Hr as [Hr0 Hr]. unfold transpose. split.
  - by rewrite length_map, length_seq.
  - apply Forall_map, Forall_forall. intros c _. by rewrite length_map.
Qed.

Lemma mirror_rect n m (g : Grid) :
  rect n m g -> rect n m (map (fun row => rev row) g).
Proof.
  intros [Hl Hr]. split; [by rewrite length_map|].
  apply Forall_map. eapply Forall_impl; [exact Hr|].
  intros row Hrow. cbn. by rewrite length_rev.
Qed.

Lemma mirror_involutive (g : Grid) :
  map (fun row => rev row) (map (fun row => rev row) g) = g.
Proof.
  rewrite map_map. induction g as [|row g IH]; [done|].
  cbn. by rewrite rev_involutive, IH.
Qed.

Lemma transpose_unfold n m (g : Grid) :
  rect (S n) m g ->
  transpose g = map (fun c => map (fun row => nth c row 0%Z) g) (seq 0 m).
Proof.
  intros [Hl Hr]. destruct g as [|row0 g]; [done|].
  apply Forall_cons in Hr as [Hr0 _]. unfold transpose. by rewrite Hr0.
Qed.

(** On a grid of [n] rows of length [m], column [c] of the transposed grid
    is row [c]. *)
Lemma transpose_column n m (g : Grid) c :
  rect (S n) m g -> c < S n ->
  map (fun row => nth c row 0%Z) (transpose g) = nth c g [].
Proof.
  intros Hg Hc. rewrite (transpose_unfold _ _ _ Hg), map_map.
  destruct Hg as [Hl Hr].
  assert (Hrc : length (nth c g []) = m).
  { rewrite Forall_forall in Hr. apply Hr, list_elem_of_In, nth_In. lia. }
  rewrite <- Hrc. rewrite <- (map_nth_seq (nth c g []) 0%Z) at 2.
  apply map_ext_in. intros c' Hc'. apply in_seq in Hc'.
  rewrite (nth_indep _ 0%Z (nth c' [] 0%Z)) by (rewrite length_map; lia).
  rewrite (map_nth (fun row => nth c' row 0%Z)). by destruct c'.
Qed.

Lemma transpose_involutive n m (g : Grid) :
  rect (S n) (S m) g -> transpose (transpose g) = g.
Proof.
  intros Hg. pose proof (transpose_rect _ _ _ Hg) as Ht.
  rewrite (transpose_unfold _ _ _ Ht).
  destruct Hg as [Hl Hr]. rewrite <- Hl.
  etransitivity; [|apply (map_nth_seq g [])].
  apply map_ext_in. intros c Hc. apply in_seq in Hc.
  eapply transpose_column; [split; [exact Hl|exact Hr]|lia].
Qed.

(** Left, right and up are normalised by an involution. *)
Lemma rotateGrid_round_trip n m (g : Grid) d :
  d <> Down -> rect (S n) (S m) g ->
  rotateGrid (rotateGrid g d false) d true = g.
Proof.
  intros Hd Hg. destruct d; cbn.
  - reflexivity.
  - apply mirror_involutive.
  - eapply transpose_involutive, Hg.
  - congruence.
Qed.

(** *** What ['down'] applied twice does: a half turn *)

Lemma rev_seq m : rev (seq 0 m) = map (fun c => m - 1 - c) (seq 0 m).
Proof.
  induction m as [|m IH]; [done|].
  rewrite seq_S at 1. rewrite rev_app_distr. cbn [rev app Nat.add].
  cbn [seq map]. f_equal; [lia|].
  rewrite IH, <- seq_shift, map_map.
  apply map_ext. intros c. lia.
Qed.

Lemma transpose_mirror n m (g : Grid) :
  rect (S n) m g -> transpose (map (fun row => rev row) g) = rev (transpose g).
Proof.
  intros Hg. rewrite (transpose_unfold n m) by by apply mirror_rect.
  rewrite (transpose_unfold n m) by done.
  rewrite <- map_rev, rev_seq, map_map.
  apply map_ext_in. intros c Hc%in_seq. rewrite map_map.
  destruct Hg as [_ Hr]. rewrite Forall_forall in Hr.
  apply map_ext_in. intros row Hrow%list_elem_of_In%Hr.
  rewrite rev_nth by lia. f_equal. lia.
Qed.

Lemma rotateGrid_down_twice n m (g : Grid) b1 b2 :
  rect (S n) (S m) g ->
  rotateGrid (rotateGrid g Down b1) Down b2 = map (fun row => rev row) (rev g).
Proof.
  intros Hg. cbn [rotateGrid].
  rewrite (transpose_mirror m (S n)) by by apply transpose_rect.
  by rewrite (transpose_involutive n m).
Qed.

(** A property of cells that holds of 0 survives the transform. *)
Lemma transpose_Forall (P : Z -> Prop) (g : Grid) :
  P 0%Z -> Forall (Forall P) g -> Forall (Forall P) (transpose g).
Proof.
  intros H0 Hg. unfold transpose. destruct g as [|row0 g0]; [done|].
  generalize dependent (row0 :: g0). intros g Hg.
  apply Forall_map, Forall_forall. intros c _. cbn.
  apply Forall_map. eapply Forall_impl; [exact Hg|]. intros row Hrow. cbn.
  destruct (nth_in_or_default c row 0%Z) as [Hin| ->]; [|done].
  rewrite Forall_forall in Hrow. by apply Hrow, list_elem_of_In.
Qed.

Lemma mirror_Forall (P : Z -> Prop) (g : Grid) :
  Forall (Forall P) g -> Forall (Forall P) (map (fun row => rev row) g).
Proof.
  intros Hg. apply Forall_map. eapply Forall_impl; [exact Hg|].
  intros row Hrow. cbn. rewrite !Forall_forall in *.
  intros x Hx. apply Hrow. by apply list_elem_of_In, in_rev, list_elem_of_In.
Qed.

Lemma rotateGrid_Forall (P : Z -> Prop) (g : Grid) d b :
  P 0%Z -> Forall (Forall P) g -> Forall (Forall P) (rotateGrid g d b).
Proof.
  intros H0 Hg. destruct d; cbn;
    auto using transpose_Forall, mirror_Forall.
Qed.

End Rotate.

(** ** [arraysEqual] and the row scan *)

Section Rows.

Lemma Forall_nonzero (P : Z -> Prop) (row : list Z) :
  Forall P row -> Forall P (filter (fun val => val ≠ 0%Z) row).
Proof.
  rewrite !Forall_forall. intros H x [_ Hx]%list_elem_of_filter. by apply H.
Qed.

Lemma arraysEqual_spec (a b : list Z) : arraysEqual a b = true <-> a = b.
Proof.
  unfold arraysEqual. rewrite andb_true_iff, Nat.eqb_eq, forallb_forall. split.
  - intros [Hlen Hall]. apply list_eq. intros i.
    destruct (a !! i) as [y|] eqn:Hi.
    + assert (Hin : (i, y) ∈ imap pair a)
        by (apply elem_of_lookup_imap; by exists i, y).
      apply list_elem_of_In, Hall, bool_decide_eq_true in Hin. by symmetry.
    + symmetry. apply lookup_ge_None. apply lookup_ge_None in Hi. lia.
  - intros ->. split; [done|]. intros [i y] Hin.
    apply list_elem_of_In, elem_of_lookup_imap in Hin as (i' & y' & Heq & Hi).
    inversion Heq; subst. by apply bool_decide_eq_true_2.
Qed.

(** Induction following the two ways the [for] loop advances. *)
Lemma merge_scan_ind (P : list Z -> Prop) :
  P [] ->
  (forall a, P [a]) ->
  (forall a rest, P rest -> P (a :: a :: rest)) ->
  (forall a b rest, a <> b -> P (b :: rest) -> P (a :: b :: rest)) ->
  forall l, P l.
Proof.
  intros Hnil Hone Heq Hne l.
  assert (H : P l /\ forall a, P (a :: l)); [|by destruct H].
  induction l as [|b rest [IH1 IH2]]; [by split|].
  split; [apply IH2|]. intros a.
  destruct (decide (a = b)) as [->|Hab]; [by apply Heq|by apply Hne].
Qed.

Lemma merge_scan_eq a rest :
  merge_scan (a :: a :: rest) =
  mkRowScan ((a * 2)%Z :: scan_row (merge_scan rest))
            (a * 2 + scan_score (merge_scan rest))%Z
            ((a * 2)%Z :: scan_merged (merge_scan rest)) true.
Proof. cbn [merge_scan]. by rewrite Z.eqb_refl. Qed.

Lemma merge_scan_ne a b rest :
  a <> b ->
  merge_scan (a :: b :: rest) =
  mkRowScan (a :: scan_row (merge_scan (b :: rest)))
            (scan_score (merge_scan (b :: rest)))
            (scan_merged (merge_scan (b :: rest)))
            (scan_moved (merge_scan (b :: rest))).
Proof.
  intros Hab. cbn [merge_scan].
  destruct (Z.eqb_spec a b) as [?|_]; [done|reflexivity].
Qed.

(** The score added by a row is the sum of the values pushed on [merged]. *)
Lemma merge_scan_score l :
  scan_score (merge_scan l) = foldr Z.add 0%Z (scan_merged (merge_scan l)).
Proof.
  induction l as [| a | a rest IH | a b rest Hab IH] using merge_scan_ind;
    [done|done| |].
  - rewrite merge_scan_eq. cbn. by rewrite IH.
  - by rewrite merge_scan_ne.
Qed.

Lemma merge_scan_score_nonneg l :
  Forall (fun v => 0 <= v)%Z l -> (0 <= scan_score (merge_scan l))%Z.
Proof.
  induction l as [| a | a rest IH | a b rest Hab IH] using merge_scan_ind;
    intros Hl; [done|done| |].
  - rewrite merge_scan_eq. cbn.
    apply Forall_cons in Hl as [Ha Hl]. apply Forall_cons in Hl as [_ Hl].
    specialize (IH Hl). lia.
  - rewrite merge_scan_ne by done. cbn [scan_score].
    apply Forall_cons in Hl as [_ Hl]. by apply IH.
Qed.

(** A scan that did not set [this.moved] merged nothing. *)
Lemma merge_scan_unmoved l :
  scan_moved (merge_scan l) = false ->
  scan_row (merge_scan l) = l /\ scan_score (merge_scan l) = 0%Z
  /\ scan_merged (merge_scan l) = [].
Proof.
  induction l as [| a | a rest IH | a b rest Hab IH] using merge_scan_ind;
    [done|done| |].
  - by rewrite merge_scan_eq.
  - rewrite merge_scan_ne by done.
    cbn [scan_row scan_score scan_merged scan_moved]. intros Hm.
    destruct (IH Hm) as (-> & -> & ->). done.
Qed.

Lemma merge_scan_merged_moved l :
  scan_moved (merge_scan l) = false <-> scan_merged (merge_scan l) = [].
Proof.
  induction l as [| a | a rest IH | a b rest Hab IH] using merge_scan_ind;
    [done|done| |].
  - by rewrite merge_scan_eq.
  - by rewrite merge_scan_ne.
Qed.

Lemma merge_scan_length l :
  length (scan_row (merge_scan l)) + length (scan_merged (merge_scan l)) = length l.
Proof.
  induction l as [| a | a rest IH | a b rest Hab IH] using merge_scan_ind;
    [done|done| |].
  - rewrite merge_scan_eq. cbn [scan_row scan_merged length]. lia.
  - rewrite merge_scan_ne by done. cbn [scan_row scan_merged length] in *. lia.
Qed.

Lemma moveLeft_row_unmoved n i row :
  res_moved (moveLeft_row n i row) = false ->
  res_grid (moveLeft_row n i row) = [row]
  /\ res_score (moveLeft_row n i row) = 0%Z
  /\ res_merged (moveLeft_row n i row) = [].
Proof.
  unfold moveLeft_row. cbn. intros Hm.
  apply orb_false_iff in Hm as [Hscan Heq].
  apply negb_false_iff, arraysEqual_spec in Heq.
  destruct (merge_scan_unmoved _ Hscan) as (_ & Hs & Hmg).
  by rewrite <- Heq, Hs, Hmg.
Qed.

Lemma moveLeft_from_unmoved n i (g : Grid) :
  res_moved (moveLeft_from n i g) = false ->
  res_grid (moveLeft_from n i g) = g
  /\ res_score (moveLeft_from n i g) = 0%Z
  /\ res_merged (moveLeft_from n i g) = [].
Proof.
  revert i. induction g as [|row g IH]; intros i; [done|].
  cbn [moveLeft_from res_moved res_grid res_score res_merged]. intros Hm.
  apply orb_false_iff in Hm as [Hrow Hrest].
  destruct (moveLeft_row_unmoved _ _ _ Hrow) as (-> & -> & ->).
  destruct (IH _ Hrest) as (-> & -> & ->). done.
Qed.

Lemma merged_sum_app m1 m2 :
  merged_sum (m1 ++ m2) = (merged_sum m1 + merged_sum m2)%Z.
Proof.
  unfold merged_sum. induction m1 as [|e m1 IH]; [done|].
  cbn in *. rewrite IH. lia.
Qed.

Lemma merged_sum_row i vs :
  merged_sum (map (fun v => (i, v)) vs) = foldr Z.add 0%Z vs.
Proof.
  unfold merged_sum. induction vs as [|v vs IH]; [done|].
  cbn in *. by rewrite IH.
Qed.

(** [moveLeft]'s [score] is the sum of the [value]s of its [merged] list. *)
Lemma moveLeft_from_score n i (g : Grid) :
  res_score (moveLeft_from n i g) = merged_sum (res_merged (moveLeft_from n i g)).
Proof.
  revert i. induction g as [|row g IH]; intros i; [done|].
  cbn [moveLeft_from res_score res_merged].
  rewrite merged_sum_app, <- IH. f_equal.
  unfold moveLeft_row. cbn. by rewrite merged_sum_row, merge_scan_score.
Qed.

Lemma moveLeft_from_score_nonneg n i (g : Grid) :
  nonneg g -> (0 <= res_score (moveLeft_from n i g))%Z.
Proof.
  revert i. induction g as [|row g IH]; intros i Hg; [done|].
  apply Forall_cons in Hg as [Hrow Hg].
  cbn [moveLeft_from res_score]. specialize (IH (S i) Hg).
  assert (0 <= res_score (moveLeft_row n i row))%Z; [|lia].
  unfold moveLeft_row. cbn. apply merge_scan_score_nonneg.
  by apply Forall_nonzero.
Qed.

(** *** Counting tiles: every merge removes exactly one *)

Lemma filter_nonzero_id (l : list Z) :
  Forall (fun v => v ≠ 0%Z) l -> filter (fun val => val ≠ 0%Z) l = l.
Proof.
  induction 1 as [|x l Hx Hl IH]; [done|].
  rewrite filter_cons_True by done. by rewrite IH.
Qed.

Lemma filter_nonzero_zeros k :
  filter (fun val => val ≠ 0%Z) (replicate k 0%Z) = [].
Proof.
  induction k as [|k IH]; [done|]. cbn [replicate].
  rewrite filter_cons_False; [done|]. intros H. by apply H.
Qed.

Lemma merge_scan_nonzero l :
  Forall (fun v => v ≠ 0%Z) l -> Forall (fun v => v ≠ 0%Z) (scan_row (merge_scan l)).
Proof.
  induction l as [| a | a rest IH | a b rest Hab IH] using merge_scan_ind;
    intros Hl; [done|done| |].
  - rewrite merge_scan_eq. cbn [scan_row].
    apply Forall_cons in Hl as [Ha Hl]. apply Forall_cons in Hl as [_ Hl].
    apply Forall_cons. split; [lia|by apply IH].
  - rewrite merge_scan_ne by done. cbn [scan_row].
    apply Forall_cons in Hl as [Ha Hl]. apply Forall_cons. split; [done|by apply IH].
Qed.

Lemma filter_nonzero_all (row : list Z) :
  Forall (fun v => v ≠ 0%Z) (filter (fun val => val ≠ 0%Z) row).
Proof. apply Forall_forall. by intros x [Hx _]%list_elem_of_filter. Qed.

Lemma tiles_app (g1 g2 : Grid) : tiles (g1 ++ g2) = tiles g1 + tiles g2.
Proof. unfold tiles. induction g1 as [|row g1 IH]; [done|]. cbn in *. lia. Qed.

Lemma moveLeft_row_tiles n i row :
  tiles (res_grid (moveLeft_row n i row)) + length (res_merged (moveLeft_row n i row))
  = tiles [row].
Proof.
  unfold moveLeft_row, tiles, pad. cbn. rewrite filter_app, filter_nonzero_zeros, app_nil_r.
  rewrite filter_nonzero_id by apply merge_scan_nonzero, filter_nonzero_all.
  rewrite length_map.
  pose proof (merge_scan_length (filter (fun val => val ≠ 0%Z) row)). lia.
Qed.

(** The tiles left by [moveLeft] and the entries of [merged] add up to the
    tiles it was given. *)
Lemma moveLeft_from_tiles n i (g : Grid) :
  tiles (res_grid (moveLeft_from n i g)) + length (res_merged (moveLeft_from n i g))
  = tiles g.
Proof.
  revert i. induction g as [|row g IH]; intros i; [done|].
  cbn [moveLeft_from res_grid res_merged].
  rewrite tiles_app, length_app. specialize (IH (S i)).
  pose proof (moveLeft_row_tiles n i row).
  change (row :: g) with ([row] ++ g). rewrite tiles_app. lia.
Qed.

End Rows.

(** ** [saveState], [slide], [after_moved]: field by field *)

Section Fields.

Lemma saveState_history st :
  history (saveState st) =
  if bool_decide (maxHistorySize st < S (length (history st)))
  then tail (history st ++ [snapshot_of st])
  else history st ++ [snapshot_of st].
Proof.
  unfold saveState, snapshot_of. cbn. by rewrite length_app, Nat.add_1_r.
Qed.

(** With room for at least one snapshot, the newest entry after
    [saveState] is the state it was called on. *)
Lemma saveState_last st :
  1 <= maxHistorySize st ->
  last (history (saveState st)) = Some (snapshot_of st).
Proof.
  intros Hmax. rewrite saveState_history. case_bool_decide as Hlen.
  - destruct (history st) as [|s h]; [cbn in Hlen; lia|].
    cbn [app tail]. apply last_snoc.
  - apply last_snoc.
Qed.

Lemma slide_history d st : history (slide d st).1.1 = history (saveState st).
Proof. unfold slide. by case_match. Qed.

Lemma slide_grid d st :
  grid (slide d st).1.1 = rotateGrid (res_grid (move_result d st)) d true.
Proof. unfold slide. by case_match. Qed.

Lemma slide_moved d st : moved (slide d st).1.1 = res_moved (move_result d st).
Proof. unfold slide. by case_match. Qed.

Lemma slide_merged d st : (slide d st).1.2 = res_merged (move_result d st).
Proof. unfold slide. by case_match. Qed.

Lemma slide_score d st :
  score (slide d st).1.1 =
  if (0 <? res_score (move_result d st))%Z
  then (score st + res_score (move_result d st))%Z else score st.
Proof. unfold slide, move_result. cbn. by case_match. Qed.

Lemma slide_events_unmerged d st :
  res_score (move_result d st) = 0%Z -> (slide d st).2 = [].
Proof. unfold slide, move_result. cbn. intros H. by rewrite H. Qed.

Lemma slide_flags d st :
  size (slide d st).1.1 = size st /\ won (slide d st).1.1 = won st
  /\ over (slide d st).1.1 = over st
  /\ maxHistorySize (slide d st).1.1 = maxHistorySize st.
Proof. unfold slide. by case_match. Qed.

Lemma after_moved_fields r merged st :
  score (after_moved r merged st).1 = score st
  /\ history (after_moved r merged st).1 = history st
  /\ moved (after_moved r merged st).1 = moved st
  /\ size (after_moved r merged st).1 = size st
  /\ grid (after_moved r merged st).1 = addRandomTile_grid (size st) r (grid st).
Proof.
  unfold after_moved.
  destruct (negb _ && hasValue _ _); cbn; by destruct (isGameOver _ _).
Qed.

(** [move] seen through its components when the game is not over. *)
Lemma move_unfold d r st :
  over st = false ->
  move d r st =
  if res_moved (move_result d st)
  then ((after_moved r (res_merged (move_result d st)) (slide d st).1.1).1,
        Some true,
        (slide d st).2
        ++ (after_moved r (res_merged (move_result d st)) (slide d st).1.1).2)
  else ((slide d st).1.1, Some false, (slide d st).2).
Proof.
  intros Hover. unfold move. rewrite Hover.
  pose proof (slide_moved d st) as Hm. pose proof (slide_merged d st) as Hg.
  destruct (slide d st) as [[st1 merged] ev]. cbn in Hm, Hg. subst merged.
  cbn [fst snd]. rewrite Hm. destruct (res_moved (move_result d st)); [|done].
  pose proof (after_moved_fields r (res_merged (move_result d st)) st1)
    as (_ & _ & Hm' & _).
  destruct (after_moved r (res_merged (move_result d st)) st1) as [st2 ev2].
  cbn in *. by rewrite Hm', Hm.
Qed.

Lemma move_over d r st : over st = true -> move d r st = (st, None, []).
Proof. intros H. unfold move. by rewrite H. Qed.

Lemma move_result_unmoved d st :
  res_moved (move_result d st) = false ->
  res_grid (move_result d st) = rotateGrid (grid st) d false
  /\ res_score (move_result d st) = 0%Z
  /\ res_merged (move_result d st) = [].
Proof. apply moveLeft_from_unmoved. Qed.

End Fields.

(** ** The orientation transform: claims *)

(** C10. The [reverse] argument of [rotateGrid] has no effect: for every
    grid and direction, [rotateGrid(g, d, true)] is
    [rotateGrid(g, d, false)]. *)
Theorem rotateGrid_reverse_ignored (g : Grid) (d : direction) :
  rotateGrid g d true = rotateGrid g d false.
Proof. by destruct d. Qed.

(** C1, at ['down']. On the grid [[0,0,0,0],[0,0,0,0],[0,0,0,0],[2,4,0,0]]
    normalising for ['down'] and then calling [rotateGrid] again with
    [reverse = true] does not give the grid back: it gives the grid turned
    by 180 degrees. *)
Theorem rotateGrid_down_not_restored :
  rotateGrid (rotateGrid (grid start_game) Down false) Down true = start_grid_turned
  /\ rotateGrid (rotateGrid (grid start_game) Down false) Down true <> grid start_game.
Proof. split; [by vm_compute|vm_compute; discriminate]. Qed.

(** ** [moveLeft]: claims *)

(** C4. [moveLeft] maps the row [2,2,2,0] to [4,2,0,0] (one merge, not
    [4,4,0,0]), the row [4,4,4,4] to [8,8,0,0] and the row [2,2,4,4] to
    [4,8,0,0] with a score of 12. *)
Theorem moveLeft_rows_examples :
  moveLeft 4 [[2; 2; 2; 0]]%Z = mkMoveResult [[4; 2; 0; 0]]%Z 4 [(0, 4%Z)] true
  /\ res_grid (moveLeft 4 [[2; 2; 2; 0]]%Z) <> [[4; 4; 0; 0]]%Z
  /\ res_grid (moveLeft 4 [[2; 2; 2; 0]]%Z) <> [[8; 0; 0; 0]]%Z
  /\ res_grid (moveLeft 4 [[4; 4; 4; 4]]%Z) = [[8; 8; 0; 0]]%Z
  /\ res_grid (moveLeft 4 [[2; 2; 4; 4]]%Z) = [[4; 8; 0; 0]]%Z
  /\ res_score (moveLeft 4 [[2; 2; 4; 4]]%Z) = 12%Z.
Proof. repeat split; vm_compute; (reflexivity || discriminate). Qed.

(** ** [move] and [undo]: claims *)

Lemma start_game_eq :
  start_game =
  mkGame 4 [[0; 0; 0; 0]; [0; 0; 0; 0]; [0; 0; 0; 0]; [2; 4; 0; 0]]%Z
         0 false false false [] 1 true false false false.
Proof. by vm_compute. Qed.

Lemma pair_game_eq :
  pair_game =
  mkGame 4 [[0; 0; 0; 0]; [0; 0; 0; 0]; [0; 0; 0; 0]; [2; 2; 0; 0]]%Z
         0 false false false [] 1 true false false false.
Proof. by vm_compute. Qed.

(** When [move] returns [false] the score is unchanged, nothing was emitted
    and the grid is the input normalised twice. *)
Lemma move_false d r st st' ev :
  move d r st = (st', Some false, ev) ->
  grid st' = rotateGrid (rotateGrid (grid st) d false) d true
  /\ score st' = score st
  /\ history st' = history (saveState st)
  /\ ev = [].
Proof.
  intros Hmove. destruct (over st) eqn:Hover.
  { by rewrite move_over in Hmove. }
  rewrite move_unfold in Hmove by done.
  destruct (res_moved (move_result d st)) eqn:Hm; [done|].
  destruct (move_result_unmoved _ _ Hm) as (Hg & Hs & _).
  inversion Hmove as [[Hst Hev]]. clear Hmove.
  rewrite slide_grid, slide_score, slide_history, Hg, Hs.
  by rewrite slide_events_unmerged.
Qed.

(** For left, right and up, on a rectangular grid, a move that returns
    [false] leaves grid and score as they were. *)
Lemma move_false_invariant n m d r st st' ev :
  d <> Down -> rect (S n) (S m) (grid st) ->
  move d r st = (st', Some false, ev) ->
  grid st' = grid st /\ score st' = score st /\ tiles (grid st') = tiles (grid st).
Proof.
  intros Hd Hrect Hmove.
  destruct (move_false _ _ _ _ _ Hmove) as (Hg & Hs & _).
  rewrite (rotateGrid_round_trip n m) in Hg by done. by rewrite Hg, Hs.
Qed.

(** For down, on a rectangular grid, a move that returns [false] leaves the
    grid turned by 180 degrees. *)
Lemma move_down_false_half_turn n m r st st' ev :
  rect (S n) (S m) (grid st) ->
  move Down r st = (st', Some false, ev) ->
  grid st' = map (fun row => rev row) (rev (grid st)).
Proof.
  intros Hrect Hmove.
  destruct (move_false _ _ _ _ _ Hmove) as (Hg & _).
  by rewrite (rotateGrid_down_twice n m) in Hg.
Qed.

(** C2, at ['down']. Right after construction with the grid
    [[0,0,0,0],[0,0,0,0],[0,0,0,0],[2,4,0,0]], [move('down')] returns
    [false] and leaves the score alone, but the grid it leaves is the old
    one turned by 180 degrees. *)
Theorem move_down_false_changes_grid (r : rand) :
  over start_game = false
  /\ (move Down r start_game).1.2 = Some false
  /\ grid (move Down r start_game).1.1 = start_grid_turned
  /\ grid (move Down r start_game).1.1 <> grid start_game
  /\ score (move Down r start_game).1.1 = score start_game
  /\ tiles (grid (move Down r start_game).1.1) = tiles (grid start_game).
Proof.
  rewrite start_game_eq. destruct r as [k two].
  repeat split; vm_compute; (reflexivity || discriminate).
Qed.

(** C3, at a move that changes nothing. Right after construction with
    the grid [[0,0,0,0],[0,0,0,0],[0,0,0,0],[2,4,0,0]], [move('left')]
    returns [false] and leaves the grid alone, yet the history goes from
    empty to one snapshot.  And after a committed move on
    [[0,0,0,0],[0,0,0,0],[0,0,0,0],[2,2,0,0]], a second [move('left')] that
    changes nothing replaces the only snapshot by the current state: the
    [undo()] that follows returns [true], restores nothing, the board of
    before the committed move is lost, and the page takes one off its move
    counter although the committed move still stands. *)
Theorem noop_move_pushes_snapshot :
  (over start_game = false
   /\ (move Left first_two start_game).1.2 = Some false
   /\ grid (move Left first_two start_game).1.1 = grid start_game
   /\ history start_game = []
   /\ history (move Left first_two start_game).1.1 = [snapshot_of start_game]
   /\ history (move Left first_two start_game).1.1 <> history start_game)
  /\ ((move Left first_two pair_game).1.2 = Some true
      /\ (move Left first_two (move Left first_two pair_game).1.1).1.2 = Some false
      /\ history (move Left first_two pair_game).1.1 = [snapshot_of pair_game]
      /\ history (move Left first_two (move Left first_two pair_game).1.1).1.1
         = [snapshot_of (move Left first_two pair_game).1.1]
      /\ (undo (move Left first_two (move Left first_two pair_game).1.1).1.1).1.2
         = true
      /\ grid (undo (move Left first_two (move Left first_two pair_game).1.1).1.1).1.1
         = grid (move Left first_two pair_game).1.1
      /\ grid (undo (move Left first_two (move Left first_two pair_game).1.1).1.1).1.1
         <> grid pair_game)
  /\ (App.moveCount (App.act App.pair_app (App.KeyDown Left first_two)) = 1%Z
      /\ App.moveCount
           (foldl App.act App.pair_app
                  [App.KeyDown Left first_two; App.KeyDown Left first_two;
                   App.UndoClick]) = 0%Z
      /\ grid (App.game
                 (foldl App.act App.pair_app
                        [App.KeyDown Left first_two; App.KeyDown Left first_two;
                         App.UndoClick]))
         = grid (App.game (App.act App.pair_app (App.KeyDown Left first_two)))).
Proof. repeat split; vm_compute; (reflexivity || discriminate). Qed.

(** The part of the no-op behaviour that is as intended: when [move(d)]
    returns [false] no callback is called and no sound is played. *)
Lemma move_false_no_event d r st st' ev :
  over st = false -> move d r st = (st', Some false, ev) -> ev = [].
Proof.
  intros _ Hmove. by destruct (move_false _ _ _ _ _ Hmove) as (_ & _ & _ & Hev).
Qed.

(** C5. After a move that returns [true] on a grid without negative cells,
    the score is the old score plus the sum of the [value]s of the [merged]
    list of that move; that list has one entry per tile that disappeared. *)
Theorem move_score_conservation d r st st' ev :
  nonneg (grid st) ->
  move d r st = (st', Some true, ev) ->
  score st' = (score st + merged_sum (res_merged (move_result d st)))%Z
  /\ tiles (res_grid (move_result d st)) + length (res_merged (move_result d st))
     = tiles (rotateGrid (grid st) d false).
Proof.
  intros Hnn Hmove. split; [|apply moveLeft_from_tiles].
  destruct (over st) eqn:Hover.
  { by rewrite move_over in Hmove. }
  rewrite move_unfold in Hmove by done.
  destruct (res_moved (move_result d st)) eqn:Hm; [|done].
  inversion Hmove as [[Hst Hev]]. clear Hmove.
  destruct (after_moved_fields r (res_merged (move_result d st)) (slide d st).1.1)
    as (-> & _).
  rewrite slide_score.
  pose proof (moveLeft_from_score (size st) 0 (rotateGrid (grid st) d false)) as Hsum.
  fold (moveLeft (size st) (rotateGrid (grid st) d false)) in Hsum.
  fold (move_result d st) in Hsum.
  assert (0 <= res_score (move_result d st))%Z as Hge.
  { apply moveLeft_from_score_nonneg. by apply (rotateGrid_Forall (fun v => 0 <= v)%Z). }
  destruct (Z.ltb_spec 0 (res_score (move_result d st))); lia.
Qed.

Lemma move_score_conservation_witness :
  nonneg (grid pair_game)
  /\ (move Left first_two pair_game).1.2 = Some true
  /\ score (move Left first_two pair_game).1.1 = (score pair_game + 4)%Z.
Proof.
  assert (Hnn : nonneg (grid pair_game)).
  { rewrite pair_game_eq. cbn [grid]. repeat (first [lia | constructor]). }
  assert (Hmove : move Left first_two pair_game
                  = ((move Left first_two pair_game).1.1, Some true,
                     (move Left first_two pair_game).2)) by by vm_compute.
  destruct (move_score_conservation _ _ _ _ _ Hnn Hmove) as [Hs _].
  split; [exact Hnn|]. split; [by vm_compute|].
  rewrite Hs. by vm_compute.
Defined.

Lemma move_true_history d r st st' ev :
  move d r st = (st', Some true, ev) -> history st' = history (saveState st).
Proof.
  intros Hmove. destruct (over st) eqn:Hover.
  { by rewrite move_over in Hmove. }
  rewrite move_unfold in Hmove by done.
  destruct (res_moved (move_result d st)); [|done].
  inversion Hmove as [[Hst Hev]]. clear Hmove.
  destruct (after_moved_fields r (res_merged (move_result d st)) (slide d st).1.1)
    as (_ & -> & _).
  apply slide_history.
Qed.

(** [undo] when the newest snapshot is known. *)
Lemma undo_last st s :
  last (history st) = Some s ->
  exists st' ev,
    undo st = (st', true, ev) /\ grid st' = snap_grid s /\ score st' = snap_score s
    /\ over st' = false /\ history st' = removelast (history st).
Proof. intros H. unfold undo. rewrite H. by eexists _, _. Qed.

(** C6. If room is kept for at least one snapshot (the constructor sets
    [maxHistorySize] to 1) and [move(d)] returns [true], then [undo()]
    called next returns [true], puts back the grid and the score of before
    the move and leaves [over] false. *)
Theorem undo_after_move d r st st' ev :
  1 <= maxHistorySize st ->
  move d r st = (st', Some true, ev) ->
  exists st'' ev',
    undo st' = (st'', true, ev')
    /\ grid st'' = grid st /\ score st'' = score st /\ over st'' = false.
Proof.
  intros Hmax Hmove.
  pose proof (move_true_history _ _ _ _ _ Hmove) as Hh.
  pose proof (saveState_last st Hmax) as Hlast. rewrite <- Hh in Hlast.
  destruct (undo_last _ _ Hlast) as (st'' & ev' & Hu & Hg & Hs & Ho & _).
  by exists st'', ev'.
Qed.

Lemma undo_after_move_witness :
  1 <= maxHistorySize pair_game
  /\ (move Left first_two pair_game).1.2 = Some true
  /\ exists st'' ev',
       undo (move Left first_two pair_game).1.1 = (st'', true, ev')
       /\ grid st'' = grid pair_game /\ score st'' = score pair_game
       /\ over st'' = false.
Proof.
  assert (Hmax : 1 <= maxHistorySize pair_game).
  { rewrite pair_game_eq. cbn [maxHistorySize]. lia. }
  assert (Hmove : move Left first_two pair_game
                  = ((move Left first_two pair_game).1.1, Some true,
                     (move Left first_two pair_game).2)) by by vm_compute.
  split; [exact Hmax|]. split; [by vm_compute|].
  exact (undo_after_move _ _ _ _ _ Hmax Hmove).
Defined.

(** ** [isGameOver]: claim *)

Section Lost.

Lemma existsb_false {A} (f : A -> bool) (l : list A) :
  existsb f l = false <-> forall x, In x l -> f x = false.
Proof.
  induction l as [|y l IH]; cbn; [done|].
  rewrite orb_false_iff, IH. split.
  - intros [Hy Hl] x [<-|Hx]; auto.
  - intros H. split; auto.
Qed.

Lemma cell_Some (g : Grid) i j v :
  cell g i j = Some v <-> exists row, g !! i = Some row /\ row !! j = Some v.
Proof.
  unfold cell. destruct (g !! i) as [row|].
  - split; [by exists row|]. by intros (row' & [= <-] & H).
  - split; [done|]. by intros (row' & ? & _).
Qed.

Lemma cell_is_Some n (g : Grid) i j :
  rect n n g -> i < n -> j < n -> exists v, cell g i j = Some v.
Proof.
  intros [Hl Hr] Hi Hj.
  destruct (lookup_lt_is_Some_2 g i) as [row Hrow]; [lia|].
  assert (length row = n) as Hlen by (eapply Forall_lookup_1 in Hr; eauto).
  destruct (lookup_lt_is_Some_2 row j) as [v Hv]; [lia|].
  exists v. apply cell_Some. eauto.
Qed.

(** No row includes 0 exactly when no cell of the grid is 0. *)
Lemma hasValue_false n (g : Grid) v :
  rect n n g ->
  hasValue g v = false <-> forall i j, i < n -> j < n -> cell g i j <> Some v.
Proof.
  intros [Hl Hr]. unfold hasValue, includes. rewrite existsb_false. split.
  - intros H i j _ _ (row & Hrow & Hv)%cell_Some.
    specialize (H row). rewrite existsb_false in H.
    assert ((v =? v)%Z = false); [|lia].
    apply H; apply list_elem_of_In; eauto using list_elem_of_lookup_2.
  - intros H row Hin. apply existsb_false. intros x Hx.
    apply list_elem_of_In, list_elem_of_lookup in Hin as [i Hi].
    apply list_elem_of_In, list_elem_of_lookup in Hx as [j Hj].
    apply Z.eqb_neq. intros ->. apply (H i j).
    + apply lookup_lt_Some in Hi. lia.
    + apply lookup_lt_Some in Hj.
      assert (length row = n) by (eapply Forall_lookup_1 in Hr; eauto). lia.
    + apply cell_Some. eauto.
Qed.

Lemma can_merge_at_false n (g : Grid) i j :
  can_merge_at n g i j = false <->
  (j + 1 < n -> cell g i j <> cell g i (j + 1))
  /\ (i + 1 < n -> cell g i j <> cell g (i + 1) j).
Proof.
  unfold can_merge_at. rewrite orb_false_iff, !andb_false_iff.
  rewrite !bool_decide_eq_false. split.
  - intros [H1 H2]. split; intros Hlt; [destruct H1|destruct H2]; (done || lia).
  - intros [H1 H2]. split.
    + destruct (decide (j < n - 1)); [right; apply H1; lia|by left].
    + destruct (decide (i < n - 1)); [right; apply H2; lia|by left].
Qed.

End Lost.

Lemma isGameOver_spec n (g : Grid) :
  rect n n g ->
  isGameOver n g = true <->
    (forall i j, i < n -> j < n -> cell g i j <> Some 0%Z)
    /\ (forall i j, i < n -> j + 1 < n -> cell g i j <> cell g i (j + 1))
    /\ (forall i j, i + 1 < n -> j < n -> cell g i j <> cell g (i + 1) j).
Proof.
  intros Hrect. unfold isGameOver.
  destruct (hasValue g 0) eqn:Hzero.
  - split; [done|]. intros (H & _).
    apply (hasValue_false n) in H; [congruence|done].
  - rewrite (hasValue_false n) in Hzero by done.
    rewrite negb_true_iff, existsb_false. split.
    + intros H. split; [done|].
      split; intros i j Hi Hj.
      * assert (Hin : In i (seq 0 n)) by (apply in_seq; lia).
        specialize (H i Hin). rewrite existsb_false in H.
        assert (Hjn : In j (seq 0 n)) by (apply in_seq; lia).
        apply H, can_merge_at_false in Hjn as [Hr _]. by apply Hr.
      * assert (Hin : In i (seq 0 n)) by (apply in_seq; lia).
        specialize (H i Hin). rewrite existsb_false in H.
        assert (Hjn : In j (seq 0 n)) by (apply in_seq; lia).
        apply H, can_merge_at_false in Hjn as [_ Hd]. by apply Hd.
    + intros (_ & Hr & Hd) i Hi%in_seq. apply existsb_false.
      intros j Hj%in_seq. apply can_merge_at_false. split; intros ?.
      * apply Hr; lia.
      * apply Hd; lia.
Qed.

(** C7. On an [n] x [n] grid [isGameOver] returns [true] exactly when no
    cell is 0, no cell equals its right neighbour and no cell equals the
    cell below it; in particular it returns [false] on a full grid that
    has a pair of equal neighbours. *)
Theorem isGameOver_iff n (g : Grid) :
  rect n n g ->
  (isGameOver n g = true <->
     (forall i j, i < n -> j < n -> cell g i j <> Some 0%Z)
     /\ (forall i j, i < n -> j + 1 < n -> cell g i j <> cell g i (j + 1))
     /\ (forall i j, i + 1 < n -> j < n -> cell g i j <> cell g (i + 1) j))
  /\ ((forall i j, i < n -> j < n -> cell g i j <> Some 0%Z) ->
      (exists i j, (i < n /\ j + 1 < n /\ cell g i j = cell g i (j + 1))
                   \/ (i + 1 < n /\ j < n /\ cell g i j = cell g (i + 1) j)) ->
      isGameOver n g = false).
Proof.
  intros Hrect. split; [by apply isGameOver_spec|].
  intros _ (i & j & Hpair). apply not_true_iff_false.
  intros (_ & Hr & Hd)%(isGameOver_spec n g Hrect).
  destruct Hpair as [(Hi & Hj & Heq)|(Hi & Hj & Heq)].
  - by apply (Hr i j).
  - by apply (Hd i j).
Qed.

Lemma isGameOver_iff_witness :
  rect 4 4 full_grid /\ isGameOver 4 full_grid = true
  /\ rect 4 4 full_grid_pair /\ isGameOver 4 full_grid_pair = false.
Proof.
  assert (Hrect : rect 4 4 full_grid) by (split; [done|by repeat constructor]).
  assert (Hrect' : rect 4 4 full_grid_pair) by (split; [done|by repeat constructor]).
  split; [exact Hrect|]. split; [by vm_compute|]. split; [exact Hrect'|].
  apply (proj2 (isGameOver_iff 4 full_grid_pair Hrect')).
  - intros i j Hi Hj.
    do 4 (destruct i as [|i];
          [do 4 (destruct j as [|j]; [vm_compute; discriminate|]); lia|]).
    lia.
  - exists 0, 0. left. repeat split; (lia || by vm_compute).
Defined.

(** ** [onWin]: claim *)

Section Win.

Lemma wins_app ev1 ev2 : wins (ev1 ++ ev2) = wins ev1 + wins ev2.
Proof. unfold wins. by rewrite List.filter_app, length_app. Qed.

Lemma wins_playSound st s : wins (playSound st s) = 0.
Proof. unfold playSound. by destruct (soundEnabled st). Qed.

Lemma wins_slide d st : wins (slide d st).2 = 0.
Proof. unfold slide. case_match; [apply wins_playSound|done]. Qed.

Lemma slide_won d st : won (slide d st).1.1 = won st.
Proof. apply slide_flags. Qed.

(** The guarded block calls [onWin] only while [won] is false, and sets
    [won] when it does. *)
Lemma after_moved_wins r merged st :
  wins (after_moved r merged st).2 + wins_left (after_moved r merged st).1
  <= wins_left st.
Proof.
  unfold after_moved, wins_left.
  set (st1 := addRandomTile r st).
  assert (Hw : won st = won st1) by done. rewrite Hw. clearbody st1.
  destruct (won st1) eqn:Hw1; destruct (hasValue (grid st1) 2048);
    cbn [negb andb]; destruct (isGameOver _ _);
    cbn [fst snd won set_won set_over]; rewrite ?Hw1, ?wins_app;
    unfold playSound, fire; cbn [soundEnabled onUpdate onWin onGameOver set_won];
    destruct (soundEnabled st1), (onUpdate st1), (onWin st1), (onGameOver st1);
    cbn; lia.
Qed.

(** Every call consumes what it emits: [wins] of the events plus what is
    left afterwards never exceeds what was left before. *)
Lemma step_wins o st :
  wins (step o st).2 + wins_left (step o st).1 <= wins_left st.
Proof.
  destruct o as [d r|]; cbn [step].
  - destruct (over st) eqn:Hover.
    + rewrite move_over by done. cbn. lia.
    + rewrite move_unfold by done.
      destruct (res_moved (move_result d st)); cbn [fst snd].
      * rewrite wins_app, wins_slide.
        pose proof (after_moved_wins r (res_merged (move_result d st)) (slide d st).1.1).
        unfold wins_left in *. rewrite slide_won in *. cbn. lia.
      * rewrite wins_slide. unfold wins_left. rewrite slide_won. lia.
  - unfold undo. destruct (last (history st)) as [s|]; cbn; [|lia].
    unfold fire. destruct (onUpdate st); cbn; unfold wins_left; cbn; lia.
Qed.

Lemma run_cons o ops st :
  run (o :: ops) st =
  ((run ops (step o st).1).1, (step o st).2 ++ (run ops (step o st).1).2).
Proof.
  cbn [run]. destruct (step o st) as [st1 ev]. cbn [fst snd].
  by destruct (run ops st1).
Qed.

Lemma run_wins ops st :
  wins (run ops st).2 + wins_left (run ops st).1 <= wins_left st.
Proof.
  revert st. induction ops as [|o ops IH]; intros st; [cbn; lia|].
  rewrite run_cons. cbn [fst snd]. rewrite wins_app.
  pose proof (step_wins o st). pose proof (IH (step o st).1). lia.
Qed.

(** A committed move that leaves the target value on the board leaves
    [won] set. *)
Lemma move_sets_won d r st st' ev :
  move d r st = (st', Some true, ev) ->
  hasValue (grid st') 2048 = true -> won st' = true.
Proof.
  intros Hmove Hhas. destruct (over st) eqn:Hover.
  { by rewrite move_over in Hmove. }
  rewrite move_unfold in Hmove by done.
  destruct (res_moved (move_result d st)); [|done].
  inversion Hmove as [[Hst Hev]]. clear Hmove Hev. revert Hhas. rewrite <- Hst.
  generalize (res_merged (move_result d st)) ((slide d st).1.1). intros merged st1.
  unfold after_moved. set (st2 := addRandomTile r st1). clearbody st2.
  destruct (won st2) eqn:Hw; destruct (hasValue (grid st2) 2048) eqn:Hh;
    cbn [negb andb]; destruct (isGameOver _ _);
    cbn [fst grid won set_won set_over]; congruence.
Qed.

End Win.

(** C8. In any sequence of [move] and [undo] calls, started in any state,
    [onWin] is called at most once; and once a move has returned [true]
    with 2048 on the board, [won] is set and no later call in the session
    calls [onWin], whatever happens to the 2048 tile. *)
Theorem onWin_at_most_once (st : Game) (ops : list op) :
  wins (run ops st).2 <= 1
  /\ (forall d r st' ev,
        move d r st = (st', Some true, ev) ->
        hasValue (grid st') 2048 = true ->
        won st' = true /\ wins (run ops st').2 = 0).
Proof.
  split.
  - pose proof (run_wins ops st). unfold wins_left in *.
    destruct (won st); lia.
  - intros d r st' ev Hmove Hhas.
    pose proof (move_sets_won _ _ _ _ _ Hmove Hhas) as Hwon. split; [done|].
    pose proof (run_wins ops st') as H. unfold wins_left in H at 2.
    rewrite Hwon in H. lia.
Qed.

Lemma onWin_at_most_once_witness :
  (move Left first_two near_win_game).1.2 = Some true
  /\ wins (run (OpMove Left first_two :: win_session) near_win_game).2 = 1
  /\ won (move Left first_two near_win_game).1.1 = true
  /\ wins (run win_session (move Left first_two near_win_game).1.1).2 = 0.
Proof.
  assert (Hmove : move Left first_two near_win_game
                  = ((move Left first_two near_win_game).1.1, Some true,
                     (move Left first_two near_win_game).2)) by by vm_compute.
  assert (Hhas : hasValue (grid (move Left first_two near_win_game).1.1) 2048 = true)
    by by vm_compute.
  split; [by vm_compute|]. split; [by vm_compute|].
  exact (proj2 (onWin_at_most_once near_win_game win_session) _ _ _ _ Hmove Hhas).
Defined.

(** ** The grid invariant: claim *)

Section Tiles.

Lemma tile_ok_0 : tile_ok 0.
Proof. by left. Qed.

Lemma tile_ok_2 : tile_ok 2.
Proof. right. exists 1%Z. done. Qed.

Lemma tile_ok_4 : tile_ok 4.
Proof. right. exists 2%Z. done. Qed.

Lemma tile_okb_spec v : tile_okb v = true <-> tile_ok v.
Proof.
  unfold tile_okb, tile_ok.
  rewrite orb_true_iff, andb_true_iff, !Z.eqb_eq, Z.leb_le. split.
  - intros [->|[Hle Hv]]; [by left|]. right. exists (Z.log2 v). split; [|done].
    change 1%Z with (Z.log2 2). by apply Z.log2_le_mono.
  - intros [->|(k & Hk & ->)]; [by left|]. right.
    rewrite Z.log2_pow2 by lia. split; [|done].
    change 2%Z with (2 ^ 1)%Z at 1. apply Z.pow_le_mono_r; lia.
Qed.

Lemma tile_ok_double a : tile_ok a -> tile_ok (a * 2).
Proof.
  intros [->|(k & Hk & ->)]; [by left|]. right. exists (k + 1)%Z.
  split; [lia|]. rewrite Z.pow_add_r by lia. lia.
Qed.

Lemma merge_scan_ok l :
  Forall tile_ok l -> Forall tile_ok (scan_row (merge_scan l)).
Proof.
  induction l as [| a | a rest IH | a b rest Hab IH] using merge_scan_ind;
    intros Hl; [done|done| |].
  - rewrite merge_scan_eq. cbn [scan_row].
    apply Forall_cons in Hl as [Ha Hl]. apply Forall_cons in Hl as [_ Hl].
    apply Forall_cons. split; [by apply tile_ok_double|by apply IH].
  - rewrite merge_scan_ne by done. cbn [scan_row].
    apply Forall_cons in Hl as [Ha Hl]. apply Forall_cons. split; [done|by apply IH].
Qed.

Lemma moveLeft_from_ok n i (g : Grid) :
  grid_ok g -> grid_ok (res_grid (moveLeft_from n i g)).
Proof.
  unfold grid_ok. revert i. induction g as [|row g IH]; intros i Hg; [done|].
  apply Forall_cons in Hg as [Hrow Hg].
  cbn [moveLeft_from res_grid]. apply Forall_app. split; [|by apply IH].
  unfold moveLeft_row, pad. cbn [res_grid]. apply Forall_cons. split; [|done].
  apply Forall_app. split.
  - by apply merge_scan_ok, Forall_nonzero.
  - apply Forall_replicate, tile_ok_0.
Qed.

Lemma rotateGrid_ok (g : Grid) d b : grid_ok g -> grid_ok (rotateGrid g d b).
Proof. apply rotateGrid_Forall, tile_ok_0. Qed.

Lemma addRandomTile_grid_ok n r (g : Grid) :
  grid_ok g -> grid_ok (addRandomTile_grid n r g).
Proof.
  intros Hg. unfold addRandomTile_grid.
  destruct (emptyCells n g !! _) as [[row col]|]; [|done].
  unfold set_cell. apply Forall_alter; [done|]. intros x _ Hx.
  apply Forall_insert; [done|].
  destruct (rnd_two r); [apply tile_ok_2|apply tile_ok_4].
Qed.

Lemma init_inv r1 r2 st :
  Forall (fun s => grid_ok (snap_grid s)) (history st) -> tiles_inv (init r1 r2 st).
Proof.
  intros Hh. split; [|exact Hh]. cbn.
  do 2 apply addRandomTile_grid_ok.
  apply Forall_replicate, Forall_replicate, tile_ok_0.
Qed.

Lemma saveState_inv st :
  tiles_inv st -> Forall (fun s => grid_ok (snap_grid s)) (history (saveState st)).
Proof.
  intros [Hg Hh]. rewrite saveState_history.
  assert (Forall (fun s => grid_ok (snap_grid s)) (history st ++ [snapshot_of st])).
  { apply Forall_app. split; [done|]. by apply Forall_cons. }
  case_bool_decide; [by apply Forall_tail|done].
Qed.

Lemma slide_inv d st : tiles_inv st -> tiles_inv (slide d st).1.1.
Proof.
  intros Hinv. split.
  - rewrite slide_grid. apply rotateGrid_ok, moveLeft_from_ok, rotateGrid_ok, Hinv.
  - rewrite slide_history. by apply saveState_inv.
Qed.

Lemma after_moved_inv r merged st :
  tiles_inv st -> tiles_inv (after_moved r merged st).1.
Proof.
  intros [Hg Hh].
  destruct (after_moved_fields r merged st) as (_ & Hh' & _ & _ & Hg').
  split; [rewrite Hg'; by apply addRandomTile_grid_ok|by rewrite Hh'].
Qed.

Lemma undo_inv st : tiles_inv st -> tiles_inv (undo st).1.1.
Proof.
  intros [Hg Hh]. unfold undo.
  destruct (last (history st)) as [s|] eqn:Hlast; [|done].
  apply last_Some in Hlast as [h Hlast]. rewrite Hlast in *.
  apply Forall_app in Hh as [Hh Hs]. apply Forall_cons in Hs as [Hs _].
  split; cbn; [done|]. by rewrite removelast_last.
Qed.

Lemma step_inv o st : tiles_inv st -> tiles_inv (step o st).1.
Proof.
  intros Hinv. destruct o as [d r|]; cbn [step].
  - destruct (over st) eqn:Hover.
    + by rewrite move_over.
    + rewrite move_unfold by done.
      destruct (res_moved (move_result d st)); cbn [fst].
      * by apply after_moved_inv, slide_inv.
      * by apply slide_inv.
  - pose proof (undo_inv st Hinv) as H. by destruct (undo st) as [[st' b] ev].
Qed.

Lemma reachable_inv st : reachable st -> tiles_inv st.
Proof.
  induction 1 as [r1 r2|o st _ IH|r1 r2 st _ IH].
  - unfold constructor. apply init_inv. constructor.
  - by apply step_inv.
  - apply init_inv, IH.
Qed.

(** The constructor's history bound is never changed. *)
Lemma reachable_maxHistorySize st : reachable st -> maxHistorySize st = 1.
Proof.
  induction 1 as [r1 r2|o st _ IH|r1 r2 st _ IH]; [done| |done].
  destruct o as [d r|]; cbn [step].
  - destruct (over st) eqn:Hover.
    + by rewrite move_over.
    + rewrite move_unfold by done.
      destruct (res_moved (move_result d st)); cbn [fst].
      * unfold after_moved.
        destruct (negb _ && hasValue _ _); cbn; destruct (isGameOver _ _);
          cbn; rewrite <- IH; apply slide_flags.
      * rewrite <- IH. apply slide_flags.
  - unfold undo. by destruct (last (history st)).
Qed.

(** *** The grid stays 4 x 4 *)

Lemma rotateGrid_rect n (g : Grid) d b :
  rect (S n) (S n) g -> rect (S n) (S n) (rotateGrid g d b).
Proof.
  intros Hg. destruct d; cbn [rotateGrid];
    auto using transpose_rect, mirror_rect.
Qed.

Lemma pad_length n l : length l <= n -> length (pad n l) = n.
Proof. intros H. unfold pad. rewrite length_app, length_replicate. lia. Qed.

Lemma moveLeft_from_rect n i (g : Grid) :
  Forall (fun row => length row = n) g ->
  rect (length g) n (res_grid (moveLeft_from n i g)).
Proof.
  revert i. induction g as [|row g IH]; intros i Hg; [by split|].
  apply Forall_cons in Hg as [Hrow Hg].
  cbn [moveLeft_from res_grid moveLeft_row app length].
  apply rect_cons. split; [|by apply IH].
  apply pad_length.
  pose proof (merge_scan_length (filter (fun val => val ≠ 0%Z) row)).
  pose proof (length_filter (fun val => val ≠ 0%Z) row). lia.
Qed.

Lemma addRandomTile_grid_rect n k r (g : Grid) :
  rect k k g -> rect k k (addRandomTile_grid n r g).
Proof.
  intros [Hl Hr]. unfold addRandomTile_grid.
  destruct (emptyCells n g !! _) as [[row col]|]; [|done].
  unfold set_cell. split; [by rewrite length_alter|].
  apply Forall_alter; [done|]. intros x _ Hx. by rewrite length_insert.
Qed.

Lemma init_shape r1 r2 st :
  size st = 4 -> Forall (fun s => rect 4 4 (snap_grid s)) (history st) ->
  shape_inv (init r1 r2 st).
Proof.
  intros Hsize Hh. split; [exact Hsize|]. split; [|exact Hh]. cbn. rewrite Hsize.
  do 2 apply addRandomTile_grid_rect.
  split; [by rewrite length_replicate|].
  apply Forall_replicate. by rewrite length_replicate.
Qed.

Lemma slide_shape d st : shape_inv st -> shape_inv (slide d st).1.1.
Proof.
  intros (Hsize & Hg & Hh). destruct (slide_flags d st) as (Hs & _).
  split; [by rewrite Hs|]. split.
  - rewrite slide_grid. apply rotateGrid_rect.
    unfold move_result, moveLeft. rewrite Hsize.
    pose proof (rotateGrid_rect 3 _ d false Hg) as [Hl Hr].
    rewrite <- Hl at 1. by apply moveLeft_from_rect.
  - rewrite slide_history, saveState_history.
    assert (Forall (fun s => rect 4 4 (snap_grid s)) (history st ++ [snapshot_of st])).
    { apply Forall_app. split; [done|]. by apply Forall_cons. }
    case_bool_decide; [by apply Forall_tail|done].
Qed.

Lemma step_shape o st : shape_inv st -> shape_inv (step o st).1.
Proof.
  intros Hinv. destruct o as [d r|]; cbn [step].
  - destruct (over st) eqn:Hover.
    + by rewrite move_over.
    + rewrite move_unfold by done.
      destruct (res_moved (move_result d st)); cbn [fst]; [|by apply slide_shape].
      destruct (slide_shape d st Hinv) as (Hsize & Hg & Hh).
      destruct (after_moved_fields r (res_merged (move_result d st)) (slide d st).1.1)
        as (_ & Hh' & _ & Hs' & Hg').
      split; [by rewrite Hs'|]. split; [|by rewrite Hh'].
      rewrite Hg'. by apply addRandomTile_grid_rect.
  - destruct Hinv as (Hsize & Hg & Hh). unfold undo.
    destruct (last (history st)) as [s|] eqn:Hlast; [|done].
    apply last_Some in Hlast as [h Hlast]. rewrite Hlast in *.
    apply Forall_app in Hh as [Hh Hs]. apply Forall_cons in Hs as [Hs _].
    split; [done|]. split; cbn; [done|]. by rewrite removelast_last.
Qed.

(** Every reachable grid is 4 x 4: the embedding of [transpose] is exact
    on all of them. *)
Lemma reachable_shape st : reachable st -> shape_inv st.
Proof.
  induction 1 as [r1 r2|o st _ IH|r1 r2 st _ IH].
  - unfold constructor. apply init_shape; [reflexivity|constructor].
  - by apply step_shape.
  - destruct IH as (Hsize & _ & Hh). by apply init_shape.
Qed.

Lemma run_reachable ops st : reachable st -> reachable (run ops st).1.
Proof.
  revert st. induction ops as [|o ops IH]; intros st Hst; [done|].
  rewrite run_cons. cbn [fst]. by apply IH, reach_step.
Qed.

End Tiles.

(** C9. In every state reached from the constructor by calls of [move],
    [undo] and [init], whatever the random draws, every cell of the grid is
    0 or a power of two that is at least 2. *)
Theorem reachable_grid_ok (st : Game) :
  reachable st -> Forall (Forall tile_ok) (grid st).
Proof. intros H. by destruct (reachable_inv st H). Qed.

Lemma reachable_grid_ok_witness :
  reachable (run win_session pair_game).1
  /\ Forall (Forall tile_ok) (grid (run win_session pair_game).1)
  /\ forallb (forallb tile_okb) (grid (run win_session pair_game).1) = true.
Proof.
  assert (H : reachable (run win_session pair_game).1)
    by apply run_reachable, reach_new.
  split; [exact H|]. split; [exact (reachable_grid_ok _ H)|by vm_compute].
Defined.

(** ** More about the orientation transform *)

Section Cells.

Lemma transpose_columns n m (g : Grid) :
  rect (S n) m g -> transpose g = columns m g.
Proof. apply transpose_unfold. Qed.

Lemma columns_cell m (g : Grid) i j :
  Forall (fun row => length row = m) g -> i < length g -> j < m ->
  cell (columns m g) j i = cell g i j.
Proof.
  intros Hr Hi Hj. unfold cell, columns.
  rewrite list_lookup_fmap, lookup_seq_lt by done. cbn.
  rewrite list_lookup_fmap.
  destruct (lookup_lt_is_Some_2 g i Hi) as [row Hrow]. rewrite Hrow. cbn.
  assert (length row = m) as Hlen by (eapply Forall_lookup_1 in Hr; eauto).
  destruct (lookup_lt_is_Some_2 row j) as [v Hv]; [lia|].
  rewrite Hv. f_equal. by apply nth_lookup_Some.
Qed.

Lemma concat_map_cons {A B} (f : A -> B) (h : A -> list B) (l : list A) :
  concat (map (fun c => f c :: h c) l) ≡ₚ map f l ++ concat (map h l).
Proof.
  induction l as [|a l IH]; [done|]. cbn. constructor.
  rewrite IH. rewrite !(assoc (++)). f_equiv. apply Permutation_app_comm.
Qed.

Lemma concat_map_nil {A B} (l : list A) :
  concat (map (fun _ => @nil B) l) = [].
Proof. induction l as [|a l IH]; [done|]. exact IH. Qed.

(** The columns of a grid hold the cells of its rows. *)
Lemma columns_Permutation m (g : Grid) :
  Forall (fun row => length row = m) g -> concat (columns m g) ≡ₚ concat g.
Proof.
  induction 1 as [|row g Hrow Hg IH]; unfold columns in *.
  - cbn [map]. by rewrite concat_map_nil.
  - cbn [map concat]. rewrite concat_map_cons, IH.
    f_equiv. by rewrite <- Hrow, map_nth_seq.
Qed.

Lemma mirror_Permutation (g : Grid) :
  concat (map (fun row => rev row) g) ≡ₚ concat g.
Proof.
  induction g as [|row g IH]; [done|]. cbn. rewrite IH. f_equiv.
  symmetry. apply Permutation_rev.
Qed.

Lemma rotateGrid_Permutation n m (g : Grid) d b :
  rect (S n) m g -> concat (rotateGrid g d b) ≡ₚ concat g.
Proof.
  intros Hg. pose proof (transpose_columns _ _ _ Hg) as Ht.
  destruct Hg as [_ Hr].
  destruct d; cbn [rotateGrid]; rewrite ?mirror_Permutation, ?Ht;
    auto using columns_Permutation.
Qed.

Lemma tiles_concat (g : Grid) :
  tiles g = length (filter (fun val => val ≠ 0%Z) (concat g)).
Proof.
  unfold tiles. induction g as [|row g IH]; [done|].
  cbn [foldr concat]. by rewrite filter_app, length_app, IH.
Qed.

Lemma grid_sum_Permutation (g1 g2 : Grid) :
  concat g1 ≡ₚ concat g2 -> grid_sum g1 = grid_sum g2.
Proof.
  unfold grid_sum. induction 1 as [|x l1 l2 _ IH|x y l|l1 l2 l3 _ IH1 _ IH2];
    cbn; lia.
Qed.

Lemma tiles_Permutation (g1 g2 : Grid) :
  concat g1 ≡ₚ concat g2 -> tiles g1 = tiles g2.
Proof. intros H. rewrite !tiles_concat. by rewrite H. Qed.

End Cells.

(** X1. On a grid of [n] rows of [m] cells ([n] at least 1), [transpose]
    returns [m] rows of [n] cells and swaps the two indices:
    [transpose(g)[j][i]] is [g[i][j]]. *)
Theorem transpose_swaps_indices n m (g : Grid) i j :
  rect (S n) m g -> i < S n -> j < m ->
  rect m (S n) (transpose g) /\ cell (transpose g) j i = cell g i j.
Proof.
  intros Hg Hi Hj. split; [by apply transpose_rect|].
  rewrite (transpose_columns _ _ _ Hg). destruct Hg as [Hl Hr].
  apply columns_cell; [done|lia|done].
Qed.

Lemma transpose_swaps_indices_witness :
  rect 3 2 small_grid
  /\ rect 2 3 (transpose small_grid)
  /\ cell (transpose small_grid) 1 2 = cell small_grid 2 1.
Proof.
  assert (Hg : rect 3 2 small_grid) by (split; [done|by repeat constructor]).
  split; [exact Hg|].
  exact (transpose_swaps_indices 2 2 small_grid 2 1 Hg (le_n 3) (le_n 2)).
Defined.

(** X2. For ['left'], ['right'] and ['up'], calling [rotateGrid] twice on a
    rectangular grid with at least one row and one column gives the grid
    back. *)
Theorem rotateGrid_involutive_left_right_up n m (g : Grid) d b1 b2 :
  d <> Down -> rect (S n) (S m) g ->
  rotateGrid (rotateGrid g d b1) d b2 = g.
Proof.
  intros Hd Hg. destruct d; cbn [rotateGrid].
  - reflexivity.
  - apply mirror_involutive.
  - eapply transpose_involutive, Hg.
  - congruence.
Qed.

Lemma rotateGrid_involutive_left_right_up_witness :
  rect 3 2 small_grid
  /\ rotateGrid (rotateGrid small_grid Up false) Up true = small_grid.
Proof.
  assert (Hg : rect 3 2 small_grid) by (split; [done|by repeat constructor]).
  split; [exact Hg|].
  refine (rotateGrid_involutive_left_right_up 2 1 small_grid Up false true _ Hg).
  discriminate.
Defined.

(** X3. For ['down'], calling [rotateGrid] twice on a rectangular grid
    turns it by 180 degrees: the rows come out in reverse order, each
    reversed. *)
Theorem rotateGrid_down_twice_half_turn n m (g : Grid) b1 b2 :
  rect (S n) (S m) g ->
  rotateGrid (rotateGrid g Down b1) Down b2 = map (fun row => rev row) (rev g).
Proof.
  intros Hg. cbn [rotateGrid].
  rewrite (transpose_mirror m (S n)) by by apply transpose_rect.
  by rewrite (transpose_involutive n m).
Qed.

Lemma rotateGrid_down_twice_half_turn_witness :
  rect 3 2 small_grid
  /\ rotateGrid (rotateGrid small_grid Down false) Down true
     = [[6; 5]; [4; 3]; [2; 1]]%Z.
Proof.
  assert (Hg : rect 3 2 small_grid) by (split; [done|by repeat constructor]).
  split; [exact Hg|].
  exact (rotateGrid_down_twice_half_turn 2 1 small_grid false true Hg).
Defined.

(** X4. On a rectangular grid [rotateGrid] only moves cells around: the
    result holds the same values the same number of times, so the number
    of tiles and the sum of the cells are unchanged. *)
Theorem rotateGrid_permutes_cells n m (g : Grid) d b :
  rect (S n) m g ->
  concat (rotateGrid g d b) ≡ₚ concat g
  /\ tiles (rotateGrid g d b) = tiles g
  /\ grid_sum (rotateGrid g d b) = grid_sum g.
Proof.
  intros Hg. pose proof (rotateGrid_Permutation n m g d b Hg) as Hp.
  split; [done|]. split; [by apply tiles_Permutation|by apply grid_sum_Permutation].
Qed.

Lemma rotateGrid_permutes_cells_witness :
  rect 3 2 small_grid
  /\ tiles (rotateGrid small_grid Down false) = 6
  /\ grid_sum (rotateGrid small_grid Down false) = 21%Z.
Proof.
  assert (Hg : rect 3 2 small_grid) by (split; [done|by repeat constructor]).
  split; [exact Hg|].
  destruct (rotateGrid_permutes_cells 2 2 small_grid Down false Hg) as (_ & Ht & Hs).
  split; [rewrite Ht|rewrite Hs]; by vm_compute.
Defined.

(** ** More about [moveLeft] *)

Section Compaction.

Lemma list_sum_app (l1 l2 : list Z) :
  foldr Z.add 0%Z (l1 ++ l2) = (foldr Z.add 0%Z l1 + foldr Z.add 0%Z l2)%Z.
Proof. induction l1 as [|x l1 IH]; cbn; lia. Qed.

Lemma list_sum_zeros k : foldr Z.add 0%Z (replicate k 0%Z) = 0%Z.
Proof. induction k as [|k IH]; cbn; lia. Qed.

Lemma list_sum_nonzero (row : list Z) :
  foldr Z.add 0%Z (filter (fun val => val ≠ 0%Z) row) = foldr Z.add 0%Z row.
Proof.
  induction row as [|x row IH]; [done|].
  destruct (decide (x = 0%Z)) as [->|Hx].
  - rewrite filter_cons_False by (intros H; by apply H). cbn. lia.
  - rewrite filter_cons_True by done. cbn. lia.
Qed.

Lemma merge_scan_sum l :
  foldr Z.add 0%Z (scan_row (merge_scan l)) = foldr Z.add 0%Z l.
Proof.
  induction l as [| a | a rest IH | a b rest Hab IH] using merge_scan_ind;
    [done|done| |].
  - rewrite merge_scan_eq. cbn [scan_row foldr]. lia.
  - rewrite merge_scan_ne by done. cbn [scan_row foldr] in *. lia.
Qed.

(** Each merge uses up two tiles of the row. *)
Lemma merge_scan_pairs l :
  2 * length (scan_merged (merge_scan l)) <= length l.
Proof.
  induction l as [| a | a rest IH | a b rest Hab IH] using merge_scan_ind;
    [cbn; lia|cbn; lia| |].
  - rewrite merge_scan_eq. cbn [scan_merged length]. lia.
  - rewrite merge_scan_ne by done. cbn [scan_merged length] in *. lia.
Qed.

Lemma moveLeft_row_new_row n i row :
  res_grid (moveLeft_row n i row)
  = [scan_row (merge_scan (filter (fun val => val ≠ 0%Z) row))
     ++ replicate (n - length (scan_row (merge_scan (filter (fun val => val ≠ 0%Z) row)))) 0%Z].
Proof. reflexivity. Qed.

Lemma scan_row_nonzero row :
  Forall (fun v => v ≠ 0%Z)
         (scan_row (merge_scan (filter (fun val => val ≠ 0%Z) row))).
Proof. apply merge_scan_nonzero, filter_nonzero_all. Qed.

(** A row that comes out as it went in was not merged. *)
Lemma moveLeft_row_same n i row :
  res_grid (moveLeft_row n i row) = [row] -> res_moved (moveLeft_row n i row) = false.
Proof.
  rewrite moveLeft_row_new_row. intros [= Hrow].
  unfold moveLeft_row, pad. cbn [res_moved]. apply orb_false_iff. split.
  - apply merge_scan_merged_moved, nil_length_inv.
    pose proof (merge_scan_length (filter (fun val => val ≠ 0%Z) row)) as Hlen.
    assert (Hnz : filter (fun val => val ≠ 0%Z) row
                  = scan_row (merge_scan (filter (fun val => val ≠ 0%Z) row))).
    { rewrite <- Hrow at 1. rewrite filter_app, filter_nonzero_zeros, app_nil_r.
      apply filter_nonzero_id, scan_row_nonzero. }
    rewrite <- Hnz in Hlen at 1. lia.
  - apply negb_false_iff, arraysEqual_spec. by rewrite Hrow.
Qed.

Lemma moveLeft_from_same n i (g : Grid) :
  res_grid (moveLeft_from n i g) = g -> res_moved (moveLeft_from n i g) = false.
Proof.
  revert i. induction g as [|row g IH]; intros i; [done|].
  cbn [moveLeft_from res_grid res_moved]. rewrite moveLeft_row_new_row.
  intros [= Hrow Hrest]. apply orb_false_iff. split; [|by apply IH].
  apply moveLeft_row_same. rewrite moveLeft_row_new_row. by rewrite Hrow.
Qed.

Lemma moveLeft_from_length n i (g : Grid) :
  length (res_grid (moveLeft_from n i g)) = length g.
Proof.
  revert i. induction g as [|row g IH]; intros i; [done|].
  cbn [moveLeft_from res_grid]. rewrite moveLeft_row_new_row. cbn. by rewrite IH.
Qed.

Lemma moveLeft_from_compacted n i (g : Grid) :
  Forall compacted (res_grid (moveLeft_from n i g)).
Proof.
  revert i. induction g as [|row g IH]; intros i; [by constructor|].
  cbn [moveLeft_from res_grid]. rewrite moveLeft_row_new_row. cbn [app].
  constructor; [|apply IH].
  eexists _, _. split; [reflexivity|apply scan_row_nonzero].
Qed.

Lemma moveLeft_from_sum n i (g : Grid) :
  grid_sum (res_grid (moveLeft_from n i g)) = grid_sum g.
Proof.
  unfold grid_sum. revert i. induction g as [|row g IH]; intros i; [done|].
  cbn [moveLeft_from res_grid]. rewrite moveLeft_row_new_row. cbn [app concat].
  rewrite !list_sum_app, IH, list_sum_zeros, merge_scan_sum, list_sum_nonzero. lia.
Qed.

Lemma moveLeft_from_pairs n i (g : Grid) :
  2 * length (res_merged (moveLeft_from n i g)) <= tiles g.
Proof.
  revert i. induction g as [|row g IH]; intros i; [cbn; lia|].
  cbn [moveLeft_from res_merged]. rewrite length_app.
  change (row :: g) with ([row] ++ g). rewrite tiles_app. specialize (IH (S i)).
  assert (2 * length (res_merged (moveLeft_row n i row)) <= tiles [row]); [|lia].
  unfold moveLeft_row, tiles. cbn. rewrite length_map.
  pose proof (merge_scan_pairs (filter (fun val => val ≠ 0%Z) row)). lia.
Qed.

End Compaction.

(** X5. [moveLeft] sets [this.moved] exactly when the grid it returns
    differs from the grid it was given. *)
Theorem moveLeft_moved_iff_changed n (g : Grid) :
  res_moved (moveLeft n g) = false <-> res_grid (moveLeft n g) = g.
Proof.
  split.
  - intros H. by destruct (moveLeft_from_unmoved n 0 g H) as (? & _).
  - apply moveLeft_from_same.
Qed.

(** X6. Given rows of length [n], [moveLeft] returns as many rows, each of
    length [n] and each made of its non-zero cells followed by zeros only. *)
Theorem moveLeft_rows_compacted n (g : Grid) :
  Forall (fun row => length row = n) g ->
  rect (length g) n (res_grid (moveLeft n g))
  /\ Forall compacted (res_grid (moveLeft n g)).
Proof.
  intros Hg. split; [by apply moveLeft_from_rect|apply moveLeft_from_compacted].
Qed.

Lemma moveLeft_rows_compacted_witness :
  Forall (fun row => length row = 4) [[0; 2; 0; 2]; [4; 0; 8; 0]]%Z
  /\ rect 2 4 (res_grid (moveLeft 4 [[0; 2; 0; 2]; [4; 0; 8; 0]]%Z))
  /\ Forall compacted (res_grid (moveLeft 4 [[0; 2; 0; 2]; [4; 0; 8; 0]]%Z)).
Proof.
  assert (Hg : Forall (fun row => length row = 4) [[0; 2; 0; 2]; [4; 0; 8; 0]]%Z)
    by by repeat constructor.
  split; [exact Hg|]. exact (moveLeft_rows_compacted 4 _ Hg).
Defined.

(** X7. [moveLeft] keeps the sum of the cells: a merge replaces two equal
    tiles by one of twice the value, and nothing else changes a value. *)
Theorem moveLeft_keeps_sum n (g : Grid) :
  grid_sum (res_grid (moveLeft n g)) = grid_sum g.
Proof. apply moveLeft_from_sum. Qed.

(** X8. In one call of [moveLeft] every merge uses up two tiles and leaves
    one: twice the number of [merged] entries is at most the number of tiles
    given, and the tiles returned are the tiles given less the merges. *)
Theorem moveLeft_merges_pairs n (g : Grid) :
  2 * length (res_merged (moveLeft n g)) <= tiles g
  /\ tiles (res_grid (moveLeft n g)) = tiles g - length (res_merged (moveLeft n g)).
Proof.
  pose proof (moveLeft_from_pairs n 0 g). pose proof (moveLeft_from_tiles n 0 g).
  unfold moveLeft. lia.
Qed.

(** ** More about [addRandomTile] and [init] *)

Section Spawn.

Lemma emptyCells_spec n (g : Grid) i j :
  In (i, j) (emptyCells n g) <-> i < n /\ j < n /\ cell g i j = Some 0%Z.
Proof.
  unfold emptyCells. rewrite in_flat_map. split.
  - intros (i' & Hi'%in_seq & Hin). apply in_flat_map in Hin as (j' & Hj'%in_seq & Hin).
    case_bool_decide as Hc; [|done]. destruct Hin as [[= <- <-]|[]].
    repeat split; (lia || done).
  - intros (Hi & Hj & Hc). exists i. split; [apply in_seq; lia|].
    apply in_flat_map. exists j. split; [apply in_seq; lia|].
    rewrite bool_decide_eq_true_2 by done. by left.
Qed.

(** The two ways [addRandomTile] ends. *)
Lemma addRandomTile_grid_cases n r (g : Grid) :
  (emptyCells n g = [] /\ addRandomTile_grid n r g = g)
  \/ (exists i j v, In (i, j) (emptyCells n g) /\ (v = 2 \/ v = 4)%Z
                   /\ addRandomTile_grid n r g = set_cell g i j v).
Proof.
  unfold addRandomTile_grid. destruct (emptyCells n g) as [|c cells] eqn:Hcells.
  - left. by rewrite lookup_nil.
  - right. rewrite <- Hcells.
    destruct (lookup_lt_is_Some_2 (emptyCells n g)
                (rnd_idx r `mod` length (emptyCells n g))) as [[i j] Hij].
    { apply Nat.mod_upper_bound. by rewrite Hcells. }
    rewrite Hij. exists i, j, (if rnd_two r then 2 else 4)%Z.
    split; [by eapply list_elem_of_In, list_elem_of_lookup_2|].
    split; [destruct (rnd_two r); auto|done].
Qed.

Lemma set_cell_cell (g : Grid) i j v i' j' :
  is_Some (cell g i j) ->
  cell (set_cell g i j v) i' j'
  = if decide ((i', j') = (i, j)) then Some v else cell g i' j'.
Proof.
  unfold cell, set_cell. intros [x Hx].
  destruct (g !! i) as [row|] eqn:Hrow; [|done].
  destruct (decide (i' = i)) as [->|Hi].
  - rewrite list_lookup_alter_eq, Hrow. cbn.
    destruct (decide (j' = j)) as [->|Hj].
    + rewrite decide_True by done. apply list_lookup_insert_eq.
      by apply lookup_lt_Some in Hx.
    + rewrite decide_False by congruence. by apply list_lookup_insert_ne.
  - rewrite decide_False by congruence. by rewrite list_lookup_alter_ne.
Qed.

Lemma tiles_insert (row : list Z) j v :
  row !! j = Some 0%Z -> v ≠ 0%Z ->
  length (filter (fun val => val ≠ 0%Z) (<[j := v]> row))
  = S (length (filter (fun val => val ≠ 0%Z) row)).
Proof.
  revert j. induction row as [|x row IH]; intros [|j] Hj Hv; try done.
  - cbn in Hj. injection Hj as ->.
    change (<[0:=v]> (0%Z :: row)) with (v :: row).
    rewrite filter_cons_True by done.
    by rewrite (filter_cons_False _ 0%Z) by (intros H; by apply H).
  - change (<[S j:=v]> (x :: row)) with (x :: <[j:=v]> row).
    cbn in Hj. specialize (IH j Hj Hv).
    rewrite !filter_cons. destruct (decide (x ≠ 0%Z)); cbn [length]; by rewrite IH.
Qed.

Lemma tiles_set_cell (g : Grid) i j v :
  cell g i j = Some 0%Z -> v ≠ 0%Z -> tiles (set_cell g i j v) = S (tiles g).
Proof.
  unfold cell, set_cell. revert i. induction g as [|row g IH]; intros [|i] Hc Hv;
    try done.
  - cbn in Hc.
    change (alter (fun r => <[j:=v]> r) 0 (row :: g)) with (<[j:=v]> row :: g).
    change (<[j:=v]> row :: g) with ([<[j:=v]> row] ++ g).
    change (row :: g) with ([row] ++ g). rewrite !tiles_app.
    unfold tiles at 1 3. cbn [foldr]. rewrite tiles_insert by done. lia.
  - cbn in Hc.
    change (alter (fun r => <[j:=v]> r) (S i) (row :: g))
      with (row :: alter (fun r => <[j:=v]> r) i g).
    change (row :: alter (fun r => <[j:=v]> r) i g)
      with ([row] ++ alter (fun r => <[j:=v]> r) i g).
    change (row :: g) with ([row] ++ g). rewrite !tiles_app.
    rewrite (IH i Hc Hv). lia.
Qed.

Lemma addRandomTile_grid_Forall (P : Z -> Prop) n r (g : Grid) :
  P 2%Z -> P 4%Z -> Forall (Forall P) g -> Forall (Forall P) (addRandomTile_grid n r g).
Proof.
  intros H2 H4 Hg. unfold addRandomTile_grid.
  destruct (emptyCells n g !! _) as [[row col]|]; [|done].
  unfold set_cell. apply Forall_alter; [done|]. intros x _ Hx.
  apply Forall_insert; [done|]. by destruct (rnd_two r).
Qed.

(** With a free cell, one tile is added. *)
Lemma addRandomTile_grid_tiles n r (g : Grid) i j :
  i < n -> j < n -> cell g i j = Some 0%Z ->
  tiles (addRandomTile_grid n r g) = S (tiles g).
Proof.
  intros Hi Hj Hc.
  destruct (addRandomTile_grid_cases n r g) as [[Hnil _]|(i' & j' & v & Hin & Hv & ->)].
  - assert (Hin : In (i, j) (emptyCells n g)) by by apply emptyCells_spec.
    by rewrite Hnil in Hin.
  - apply emptyCells_spec in Hin as (_ & _ & Hc'). apply tiles_set_cell; [done|].
    destruct Hv; lia.
Qed.

Lemma tiles_zeros n m : tiles (replicate n (replicate m 0%Z)) = 0.
Proof.
  unfold tiles. induction n as [|n IH]; [done|]. cbn [replicate foldr].
  by rewrite filter_nonzero_zeros, IH.
Qed.

Lemma cell_zeros n m i j :
  i < n -> j < m -> cell (replicate n (replicate m 0%Z)) i j = Some 0%Z.
Proof.
  intros Hi Hj. unfold cell. rewrite lookup_replicate_2 by done.
  by apply lookup_replicate_2.
Qed.

End Spawn.

(** X9. [addRandomTile] does nothing when no cell in range is 0; otherwise
    it writes a 2 or a 4 into one cell that held 0, leaves every other cell
    as it was, and the grid has one tile more. *)
Theorem addRandomTile_spawns_one n r (g : Grid) :
  (emptyCells n g = [] -> addRandomTile_grid n r g = g)
  /\ (emptyCells n g <> [] ->
      exists i j v,
        i < n /\ j < n /\ cell g i j = Some 0%Z /\ (v = 2 \/ v = 4)%Z
        /\ cell (addRandomTile_grid n r g) i j = Some v
        /\ (forall i' j', (i', j') <> (i, j) ->
              cell (addRandomTile_grid n r g) i' j' = cell g i' j')
        /\ tiles (addRandomTile_grid n r g) = S (tiles g)).
Proof.
  destruct (addRandomTile_grid_cases n r g) as [[Hnil Hg]|(i & j & v & Hin & Hv & Hg)].
  - split; [done|]. by intros [].
  - split; [intros Hnil; by rewrite Hnil in Hin|]. intros _.
    apply emptyCells_spec in Hin as (Hi & Hj & Hc).
    exists i, j, v. rewrite Hg. repeat split; try done.
    + rewrite set_cell_cell by by rewrite Hc. by rewrite decide_True.
    + intros i' j' Hne. rewrite set_cell_cell by by rewrite Hc.
      by rewrite decide_False.
    + apply tiles_set_cell; [done|]. destruct Hv; lia.
Qed.

Lemma addRandomTile_spawns_one_witness :
  addRandomTile_grid 4 first_two full_grid = full_grid
  /\ tiles (addRandomTile_grid 4 first_two (grid pair_game)) = S (tiles (grid pair_game)).
Proof.
  split.
  - apply (proj1 (addRandomTile_spawns_one 4 first_two full_grid)). by vm_compute.
  - destruct (proj2 (addRandomTile_spawns_one 4 first_two (grid pair_game)))
      as (i & j & v & _ & _ & _ & _ & _ & _ & Ht); [|exact Ht].
    vm_compute. discriminate.
Defined.

Lemma init_grid_facts r1 r2 st :
  2 <= size st ->
  rect (size st) (size st) (grid (init r1 r2 st))
  /\ tiles (grid (init r1 r2 st)) = 2
  /\ Forall (Forall (fun v => v = 0 \/ v = 2 \/ v = 4)%Z) (grid (init r1 r2 st)).
Proof.
  intros Hn. set (n := size st) in *.
  set (g0 := replicate n (replicate n 0%Z)).
  set (g1 := addRandomTile_grid n r1 g0).
  change (grid (init r1 r2 st)) with (addRandomTile_grid n r2 g1).
  assert (Hr0 : rect n n g0).
  { split; [apply length_replicate|]. apply Forall_replicate, length_replicate. }
  assert (Ht1 : tiles g1 = 1).
  { unfold g1. rewrite (addRandomTile_grid_tiles n r1 g0 0 0); try lia.
    - unfold g0. by rewrite tiles_zeros.
    - apply cell_zeros; lia. }
  assert (Hfree : exists i j, i < n /\ j < n /\ cell g1 i j = Some 0%Z).
  { destruct (addRandomTile_grid_cases n r1 g0)
      as [[_ Hg]|(i & j & v & Hin & Hv & Hg)]; fold g1 in Hg.
    - exists 0, 0. rewrite Hg. repeat split; try lia. apply cell_zeros; lia.
    - apply emptyCells_spec in Hin as (Hi & Hj & Hc).
      destruct (decide ((0, 0) = (i, j))) as [Heq|Hne].
      + exists 0, 1. repeat split; try lia. rewrite Hg.
        rewrite set_cell_cell by by rewrite Hc.
        rewrite decide_False by (injection Heq as <- <-; congruence).
        apply cell_zeros; lia.
      + exists 0, 0. repeat split; try lia. rewrite Hg.
        rewrite set_cell_cell by by rewrite Hc.
        rewrite decide_False by done. apply cell_zeros; lia. }
  destruct Hfree as (i & j & Hi & Hj & Hc).
  split; [by do 2 apply addRandomTile_grid_rect|].
  split; [by rewrite (addRandomTile_grid_tiles n r2 g1 i j), Ht1|].
  do 2 (apply addRandomTile_grid_Forall; [auto|auto|]).
  apply Forall_replicate, Forall_replicate. auto.
Qed.

(** X10. On an engine whose [size] is at least 2, [init] leaves a
    [size] x [size] grid with exactly two tiles, each a 2 or a 4, the score
    0 and [won] and [over] false; it does not touch the history. *)
Theorem init_two_tiles r1 r2 st :
  2 <= size st ->
  rect (size st) (size st) (grid (init r1 r2 st))
  /\ tiles (grid (init r1 r2 st)) = 2
  /\ Forall (Forall (fun v => v = 0 \/ v = 2 \/ v = 4)%Z) (grid (init r1 r2 st))
  /\ score (init r1 r2 st) = 0%Z
  /\ won (init r1 r2 st) = false /\ over (init r1 r2 st) = false
  /\ history (init r1 r2 st) = history st.
Proof.
  intros Hn. destruct (init_grid_facts r1 r2 st Hn) as (Hr & Ht & Hs). done.
Qed.

Lemma init_two_tiles_witness :
  2 <= size pair_game
  /\ tiles (grid (init (mkRand 7 false) (mkRand 40 true) pair_game)) = 2.
Proof.
  assert (H : 2 <= size pair_game) by (rewrite pair_game_eq; cbn; lia).
  split; [exact H|].
  exact (proj1 (proj2 (init_two_tiles (mkRand 7 false) (mkRand 40 true) pair_game H))).
Defined.

(** ** What a committed move does to the number and the sum of the tiles *)

Section Accounting.

Lemma filter_full_length (l : list Z) :
  length (filter (fun val => val ≠ 0%Z) l) = length l ->
  filter (fun val => val ≠ 0%Z) l = l.
Proof.
  induction l as [|x l IH]; [done|]. rewrite filter_cons.
  pose proof (length_filter (fun val => val ≠ 0%Z) l).
  destruct (decide (x ≠ 0%Z)); cbn [length]; intros Hlen; [|lia].
  f_equal. apply IH. lia.
Qed.

(** A row of length [n] that set [this.moved] comes out with a zero. *)
Lemma moveLeft_row_moved_zero n i row :
  length row = n -> res_moved (moveLeft_row n i row) = true ->
  In 0%Z (concat (res_grid (moveLeft_row n i row))).
Proof.
  intros Hlen Hm. rewrite moveLeft_row_new_row. cbn [concat]. rewrite app_nil_r.
  set (nz := filter (fun val => val ≠ 0%Z) row) in *.
  pose proof (merge_scan_length nz) as Hsum.
  pose proof (length_filter (fun val => val ≠ 0%Z) row) as Hle. fold nz in Hle.
  destruct (decide (length (scan_row (merge_scan nz)) < n)) as [Hlt|Hge].
  - apply in_or_app. right.
    destruct (n - length (scan_row (merge_scan nz))) as [|k] eqn:Hk; [lia|].
    by left.
  - exfalso. assert (Hmg : scan_merged (merge_scan nz) = []).
    { apply nil_length_inv. lia. }
    apply merge_scan_merged_moved in Hmg.
    destruct (merge_scan_unmoved nz Hmg) as (Hrow & _).
    assert (Hnz : nz = row) by (apply filter_full_length; fold nz; lia).
    unfold moveLeft_row in Hm. cbn [res_moved] in Hm. fold nz in Hm.
    rewrite Hmg, Hrow in Hm. cbn [orb] in Hm.
    apply negb_true_iff in Hm.
    assert (arraysEqual row (pad n nz) = true); [|congruence].
    apply arraysEqual_spec. unfold pad. rewrite Hnz.
    replace (n - length row) with 0 by lia. cbn. by rewrite app_nil_r.
Qed.

Lemma moveLeft_from_moved_zero n i (g : Grid) :
  Forall (fun row => length row = n) g -> res_moved (moveLeft_from n i g) = true ->
  In 0%Z (concat (res_grid (moveLeft_from n i g))).
Proof.
  intros Hg. revert i. induction Hg as [|row g Hrow Hg IH]; intros i; [done|].
  cbn [moveLeft_from res_moved res_grid]. rewrite concat_app. intros Hm.
  apply in_or_app. apply orb_true_iff in Hm as [Hm|Hm].
  - left. by apply moveLeft_row_moved_zero.
  - right. by apply IH.
Qed.

(** A zero somewhere in an [n] x [n] grid is a cell in range. *)
Lemma zero_in_range n (g : Grid) :
  rect n n g -> In 0%Z (concat g) ->
  exists i j, i < n /\ j < n /\ cell g i j = Some 0%Z.
Proof.
  intros [Hl Hr] (row & Hrow & Hin)%in_concat.
  apply list_elem_of_In, list_elem_of_lookup in Hrow as [i Hi].
  apply list_elem_of_In, list_elem_of_lookup in Hin as [j Hj].
  assert (length row = n) as Hlen by (eapply Forall_lookup_1 in Hr; eauto).
  exists i, j. split; [apply lookup_lt_Some in Hi; lia|].
  split; [apply lookup_lt_Some in Hj; lia|]. apply cell_Some. eauto.
Qed.

Lemma list_sum_insert (row : list Z) j v :
  row !! j = Some 0%Z ->
  foldr Z.add 0%Z (<[j := v]> row) = (foldr Z.add 0%Z row + v)%Z.
Proof.
  revert j. induction row as [|x row IH]; intros [|j] Hj; try done.
  - cbn in Hj. injection Hj as ->.
    change (<[0:=v]> (0%Z :: row)) with (v :: row). cbn. lia.
  - change (<[S j:=v]> (x :: row)) with (x :: <[j:=v]> row).
    cbn in Hj. cbn [foldr]. rewrite (IH j Hj). lia.
Qed.

Lemma grid_sum_set_cell (g : Grid) i j v :
  cell g i j = Some 0%Z -> grid_sum (set_cell g i j v) = (grid_sum g + v)%Z.
Proof.
  unfold cell, set_cell, grid_sum. revert i.
  induction g as [|row g IH]; intros [|i] Hc; try done.
  - cbn in Hc.
    change (alter (fun r => <[j:=v]> r) 0 (row :: g)) with (<[j:=v]> row :: g).
    cbn [concat]. rewrite !list_sum_app, list_sum_insert by done. lia.
  - cbn in Hc.
    change (alter (fun r => <[j:=v]> r) (S i) (row :: g))
      with (row :: alter (fun r => <[j:=v]> r) i g).
    cbn [concat]. rewrite !list_sum_app, (IH i Hc). lia.
Qed.

(** The grid [move] has built when it tests [this.moved]. *)
Lemma slide_grid_facts n d st :
  size st = S n -> rect (S n) (S n) (grid st) ->
  rect (S n) (S n) (grid (slide d st).1.1)
  /\ tiles (grid (slide d st).1.1) + length (res_merged (move_result d st))
     = tiles (grid st)
  /\ 2 * length (res_merged (move_result d st)) <= tiles (grid st)
  /\ grid_sum (grid (slide d st).1.1) = grid_sum (grid st)
  /\ (res_moved (move_result d st) = true -> In 0%Z (concat (grid (slide d st).1.1))).
Proof.
  intros Hsize Hg. rewrite slide_grid. unfold move_result, moveLeft. rewrite Hsize.
  pose proof (rotateGrid_rect n _ d false Hg) as Hrot.
  assert (Hres : rect (S n) (S n)
                   (res_grid (moveLeft_from (S n) 0 (rotateGrid (grid st) d false)))).
  { destruct Hrot as [Hl Hr]. rewrite <- Hl at 1. by apply moveLeft_from_rect. }
  pose proof (rotateGrid_Permutation n (S n) _ d true Hres) as Hp2.
  pose proof (rotateGrid_Permutation n (S n) _ d false Hg) as Hp1.
  split; [by apply rotateGrid_rect|].
  rewrite (tiles_Permutation _ _ Hp2), (grid_sum_Permutation _ _ Hp2).
  rewrite <- (tiles_Permutation _ _ Hp1), <- (grid_sum_Permutation _ _ Hp1).
  split; [apply moveLeft_from_tiles|]. split; [apply moveLeft_from_pairs|].
  split; [apply moveLeft_from_sum|].
  intros Hm. apply (Permutation_in _ (Permutation_sym Hp2)).
  apply moveLeft_from_moved_zero; [by destruct Hrot|done].
Qed.

End Accounting.

(** X11. On a square grid of the engine's size, a move that returns [true]
    adds exactly one tile to the grid it has slid and merged; so the tiles
    afterwards are the tiles before, less one per merge, plus one, and the
    sum of the cells grows by the spawned 2 or 4. *)
Theorem move_spawns_one_tile n d r st st' ev :
  size st = S n -> rect (S n) (S n) (grid st) ->
  move d r st = (st', Some true, ev) ->
  tiles (grid st') = S (tiles (rotateGrid (res_grid (move_result d st)) d true))
  /\ tiles (grid st') + length (res_merged (move_result d st)) = S (tiles (grid st))
  /\ (grid_sum (grid st') = grid_sum (grid st) + 2
      \/ grid_sum (grid st') = grid_sum (grid st) + 4)%Z.
Proof.
  intros Hsize Hg Hmove. destruct (over st) eqn:Hover.
  { by rewrite move_over in Hmove. }
  rewrite move_unfold in Hmove by done.
  destruct (res_moved (move_result d st)) eqn:Hm; [|done].
  inversion Hmove as [[Hst Hev]]. clear Hmove Hev. subst st'.
  destruct (after_moved_fields r (res_merged (move_result d st)) (slide d st).1.1)
    as (_ & _ & _ & Hsz & ->).
  destruct (slide_grid_facts n d st Hsize Hg) as (Hrect & Ht & _ & Hs & Hz).
  destruct (slide_flags d st) as (Hsz' & _). rewrite Hsz', Hsize.
  destruct (zero_in_range _ _ Hrect (Hz Hm)) as (i & j & Hi & Hj & Hc).
  rewrite <- slide_grid.
  pose proof (addRandomTile_grid_tiles (S n) r _ i j Hi Hj Hc) as Hspawn.
  split; [done|]. split; [lia|].
  destruct (addRandomTile_grid_cases (S n) r (grid (slide d st).1.1))
    as [[Hnil _]|(i' & j' & v & Hin & Hv & ->)].
  - assert (Hin : In (i, j) (emptyCells (S n) (grid (slide d st).1.1)))
      by by apply emptyCells_spec.
    by rewrite Hnil in Hin.
  - apply emptyCells_spec in Hin as (_ & _ & Hc').
    rewrite grid_sum_set_cell, Hs by done. destruct Hv as [-> | ->]; auto.
Qed.

Lemma move_spawns_one_tile_witness :
  size pair_game = 4 /\ rect 4 4 (grid pair_game)
  /\ (move Left first_two pair_game).1.2 = Some true
  /\ tiles (grid (move Left first_two pair_game).1.1) + 1 = S (tiles (grid pair_game)).
Proof.
  assert (Hsize : size pair_game = 4) by by vm_compute.
  assert (Hg : rect 4 4 (grid pair_game)).
  { rewrite pair_game_eq. split; [done|by repeat constructor]. }
  assert (Hmove : move Left first_two pair_game
                  = ((move Left first_two pair_game).1.1, Some true,
                     (move Left first_two pair_game).2)) by by vm_compute.
  split; [exact Hsize|]. split; [exact Hg|]. split; [by vm_compute|].
  destruct (move_spawns_one_tile 3 _ _ _ _ _ Hsize Hg Hmove) as (_ & Ht & _).
  exact Ht.
Defined.

(** ** The history is bounded; undo goes back one step *)

Section History.

Lemma saveState_length st :
  length (history st) <= maxHistorySize st ->
  length (history (saveState st)) <= maxHistorySize st.
Proof.
  intros H. rewrite saveState_history. case_bool_decide as Hlen.
  - destruct (history st) as [|s h]; cbn in *; [lia|].
    rewrite length_app. cbn. lia.
  - rewrite length_app. cbn. lia.
Qed.

Lemma step_history_bound o st :
  length (history st) <= maxHistorySize st ->
  length (history (step o st).1) <= maxHistorySize (step o st).1
  /\ maxHistorySize (step o st).1 = maxHistorySize st.
Proof.
  intros H. destruct o as [d r|]; cbn [step].
  - destruct (over st) eqn:Hover.
    + by rewrite move_over.
    + rewrite move_unfold by done.
      destruct (slide_flags d st) as (_ & _ & _ & Hmax).
      pose proof (slide_history d st) as Hh.
      pose proof (saveState_length st H) as Hlen.
      destruct (res_moved (move_result d st)); cbn [fst].
      * destruct (after_moved_fields r (res_merged (move_result d st)) (slide d st).1.1)
          as (_ & Hh' & _).
        assert (Hmax' : maxHistorySize
                          (after_moved r (res_merged (move_result d st)) (slide d st).1.1).1
                        = maxHistorySize (slide d st).1.1).
        { unfold after_moved.
          destruct (negb _ && hasValue _ _); cbn; by destruct (isGameOver _ _). }
        rewrite Hmax', Hh', Hh, Hmax. done.
      * rewrite Hh, Hmax. done.
  - unfold undo. destruct (last (history st)) as [s|] eqn:Hlast; cbn; [|done].
    apply last_Some in Hlast as [h Hlast]. rewrite Hlast in *.
    rewrite removelast_last. rewrite length_app in H. cbn in H. split; lia.
Qed.

Lemma reachable_history_length st : reachable st -> length (history st) <= 1.
Proof.
  induction 1 as [r1 r2|o st Hst IH|r1 r2 st _ IH]; [cbn; lia| |done].
  pose proof (reachable_maxHistorySize st Hst) as Hmax.
  destruct (step_history_bound o st) as [Hlen Hmax']; [lia|]. lia.
Qed.

End History.

(** X12. If the history holds at most [maxHistorySize] snapshots, it still
    does after any sequence of [move] and [undo] calls, and
    [maxHistorySize] is never changed. *)
Theorem history_stays_bounded ops st :
  length (history st) <= maxHistorySize st ->
  length (history (run ops st).1) <= maxHistorySize st
  /\ maxHistorySize (run ops st).1 = maxHistorySize st.
Proof.
  revert st. induction ops as [|o ops IH]; intros st H; [done|].
  rewrite run_cons. cbn [fst].
  destruct (step_history_bound o st H) as [Hlen Hmax].
  destruct (IH _ Hlen) as [Hlen' Hmax']. rewrite Hmax in *. done.
Qed.

Lemma history_stays_bounded_witness :
  length (history pair_game) <= maxHistorySize pair_game
  /\ length (history (run win_session pair_game).1) <= 1.
Proof.
  assert (H : length (history pair_game) <= maxHistorySize pair_game).
  { rewrite pair_game_eq. cbn. lia. }
  split; [exact H|].
  exact (proj1 (history_stays_bounded win_session pair_game H)).
Defined.

(** X13. In every reachable state undo goes back one step only: when
    [undo()] returns [true], a second [undo()] right after returns [false]
    and changes nothing. *)
Theorem undo_twice_fails st st1 ev :
  reachable st -> undo st = (st1, true, ev) -> undo st1 = (st1, false, []).
Proof.
  intros Hlen%reachable_history_length. unfold undo.
  destruct (last (history st)) as [s|] eqn:Hlast; [|done].
  apply last_Some in Hlast as [h Hlast]. rewrite Hlast in *.
  rewrite length_app in Hlen. cbn in Hlen.
  assert (h = []) as -> by (apply nil_length_inv; lia).
  intros [= <- _]. done.
Qed.

Lemma undo_twice_fails_witness :
  reachable (move Left first_two pair_game).1.1
  /\ (undo (move Left first_two pair_game).1.1).1.2 = true
  /\ undo (undo (move Left first_two pair_game).1.1).1.1
     = ((undo (move Left first_two pair_game).1.1).1.1, false, []).
Proof.
  assert (Hr : reachable (move Left first_two pair_game).1.1).
  { change (move Left first_two pair_game).1.1
      with (run [OpMove Left first_two] pair_game).1.
    apply run_reachable, reach_new. }
  assert (Hu : undo (move Left first_two pair_game).1.1
               = ((undo (move Left first_two pair_game).1.1).1.1, true,
                  (undo (move Left first_two pair_game).1.1).2)) by by vm_compute.
  split; [exact Hr|]. split; [by vm_compute|].
  exact (undo_twice_fails _ _ _ Hr Hu).
Defined.

(** ** The [over] flag *)

Lemma after_moved_over r merged st :
  over st = false ->
  over (after_moved r merged st).1
  = isGameOver (size (after_moved r merged st).1) (grid (after_moved r merged st).1).
Proof.
  intros Ho. unfold after_moved. set (st2 := addRandomTile r st).
  assert (Ho2 : over st2 = false) by done. clearbody st2. clear Ho.
  destruct (negb _ && hasValue _ _); cbn [fst];
    destruct (isGameOver _ _) eqn:Hg;
    cbn [fst over size grid set_over set_won] in *; congruence.
Qed.

(** X14. After a move that returns [true], [over] is exactly what
    [isGameOver] says of the grid the move left. *)
Theorem move_sets_over d r st st' ev :
  move d r st = (st', Some true, ev) ->
  over st' = isGameOver (size st') (grid st').
Proof.
  intros Hmove. destruct (over st) eqn:Hover.
  { by rewrite move_over in Hmove. }
  rewrite move_unfold in Hmove by done.
  destruct (res_moved (move_result d st)); [|done].
  inversion Hmove as [[Hst Hev]]. clear Hmove Hev.
  destruct (slide_flags d st) as (_ & _ & Ho & _). rewrite Hover in Ho.
  by apply after_moved_over.
Qed.

Lemma move_sets_over_witness :
  (move Left first_two pair_game).1.2 = Some true
  /\ over (move Left first_two pair_game).1.1
     = isGameOver 4 (grid (move Left first_two pair_game).1.1).
Proof.
  assert (Hmove : move Left first_two pair_game
                  = ((move Left first_two pair_game).1.1, Some true,
                     (move Left first_two pair_game).2)) by by vm_compute.
  split; [by vm_compute|]. exact (move_sets_over _ _ _ _ _ Hmove).
Defined.

(** X15. In every reachable state, [over] is only set on a grid where
    [isGameOver] holds: moves are refused only on a stuck board. *)
Theorem over_only_when_stuck st :
  reachable st -> over st = true -> isGameOver (size st) (grid st) = true.
Proof.
  induction 1 as [r1 r2|o st _ IH|r1 r2 st _ IH]; [done| |done].
  destruct o as [d r|]; cbn [step].
  - destruct (over st) eqn:Hover.
    + rewrite move_over by done. cbn [fst]. intros _. by apply IH.
    + rewrite move_unfold by done.
      destruct (slide_flags d st) as (_ & _ & Ho & _). rewrite Hover in Ho.
      destruct (res_moved (move_result d st)); cbn [fst]; [|congruence].
      rewrite after_moved_over by done. by intros ->.
  - unfold undo. by destruct (last (history st)).
Qed.

Lemma over_only_when_stuck_witness :
  reachable (run stuck_session start_game).1
  /\ over (run stuck_session start_game).1 = true
  /\ grid (run stuck_session start_game).1
     = [[4; 2; 4; 2]; [2; 4; 2; 4]; [4; 2; 4; 2]; [2; 4; 2; 4]]%Z
  /\ isGameOver (size (run stuck_session start_game).1)
                (grid (run stuck_session start_game).1) = true.
Proof.
  assert (H : reachable (run stuck_session start_game).1)
    by apply run_reachable, reach_new.
  assert (Ho : over (run stuck_session start_game).1 = true) by by vm_compute.
  split; [exact H|]. split; [exact Ho|]. split; [by vm_compute|].
  exact (over_only_when_stuck _ H Ho).
Defined.

(** X16. Once [over] is set, no sequence of [move] calls changes the state
    or fires an event. *)
Theorem moves_ignored_when_over ops st :
  over st = true -> forallb is_move ops = true -> run ops st = (st, []).
Proof.
  intros Hover. induction ops as [|o ops IH]; [done|].
  cbn [forallb]. intros [Ho Hops]%andb_true_iff.
  rewrite run_cons. destruct o as [d r|]; [|done].
  cbn [step]. rewrite move_over by done. cbn [fst snd]. by rewrite IH.
Qed.

Lemma moves_ignored_when_over_witness :
  run [OpMove Left first_two; OpMove Down first_two]
      (set_over true (game_of full_grid))
  = (set_over true (game_of full_grid), []).
Proof.
  exact (moves_ignored_when_over [OpMove Left first_two; OpMove Down first_two]
           (set_over true (game_of full_grid)) eq_refl eq_refl).
Defined.

(** ** The score never goes down during forward play *)

Lemma step_score_mono o st :
  is_move o = true -> (score st <= score (step o st).1)%Z.
Proof.
  destruct o as [d r|]; [intros _|done]. cbn [step].
  destruct (over st) eqn:Hover.
  - rewrite move_over by done. cbn. lia.
  - rewrite move_unfold by done.
    pose proof (slide_score d st) as Hs.
    assert (score st <= score (slide d st).1.1)%Z.
    { rewrite Hs. destruct (Z.ltb_spec 0 (res_score (move_result d st))); lia. }
    destruct (res_moved (move_result d st)); cbn [fst]; [|done].
    by destruct (after_moved_fields r (res_merged (move_result d st)) (slide d st).1.1)
      as (-> & _).
Qed.

(** X17. Over any sequence of [move] calls, on any grid, the score never
    decreases. *)
Theorem score_never_decreases ops st :
  forallb is_move ops = true -> (score st <= score (run ops st).1)%Z.
Proof.
  revert st. induction ops as [|o ops IH]; intros st; [cbn; lia|].
  cbn [forallb]. intros [Ho Hops]%andb_true_iff.
  rewrite run_cons. cbn [fst].
  pose proof (step_score_mono o st Ho). pose proof (IH (step o st).1 Hops). lia.
Qed.

Lemma score_never_decreases_witness :
  (score pair_game
   <= score (run [OpMove Left first_two; OpMove Up first_two] pair_game).1)%Z.
Proof.
  exact (score_never_decreases [OpMove Left first_two; OpMove Up first_two]
           pair_game eq_refl).
Defined.

(** ** [getMaxTile] *)

Section MaxTile.

Lemma hasValue_In (g : Grid) v : hasValue g v = true <-> In v (concat g).
Proof.
  unfold hasValue, includes. rewrite existsb_exists, in_concat. split.
  - intros (row & Hrow & (x & Hx & ->%Z.eqb_eq)%existsb_exists). eauto.
  - intros (row & Hrow & Hv). exists row. split; [done|].
    apply existsb_exists. exists v. split; [done|apply Z.eqb_refl].
Qed.

Lemma hasValue_false_Forall (g : Grid) v :
  hasValue g v = false <-> Forall (Forall (fun x => x ≠ v)) g.
Proof.
  rewrite <- not_true_iff_false, hasValue_In, in_concat, Forall_forall. split.
  - intros H row Hrow%list_elem_of_In. apply Forall_forall.
    intros x Hx%list_elem_of_In ->. apply H. eauto.
  - intros H (row & Hrow%list_elem_of_In%H & Hv%list_elem_of_In).
    rewrite Forall_forall in Hrow. by apply (Hrow v).
Qed.

Lemma max_of_list (l : list Z) :
  match foldr (fun v acc => Some (match acc with None => v | Some m => Z.max v m end))
              None l with
  | None => l = []
  | Some m => In m l /\ Forall (fun v => (v <= m)%Z) l
  end.
Proof.
  induction l as [|x l IH]; [done|]. cbn [foldr].
  destruct (foldr _ None l) as [m|].
  - destruct IH as [Hin Hall]. split.
    + destruct (Z.max_spec x m) as [[_ ->]|[_ ->]]; [by right|by left].
    + constructor; [lia|]. eapply Forall_impl; [exact Hall|]. cbn. lia.
  - subst l. split; [by left|]. by repeat constructor.
Qed.

End MaxTile.

(** X18. [getMaxTile] returns [-Infinity] exactly on a grid without cells;
    otherwise it returns a value that is in the grid and that no cell
    exceeds. *)
Theorem getMaxTile_greatest (g : Grid) :
  match getMaxTile g with
  | None => concat g = []
  | Some m => hasValue g m = true /\ Forall (Forall (fun v => (v <= m)%Z)) g
  end.
Proof.
  unfold getMaxTile. pose proof (max_of_list (concat g)) as H.
  destruct (foldr _ None (concat g)) as [m|]; [|done].
  destruct H as [Hin Hall]. split; [by apply hasValue_In|].
  apply Forall_forall. intros row Hrow. apply Forall_forall. intros v Hv.
  rewrite Forall_forall in Hall. apply Hall, list_elem_of_In, in_concat.
  exists row. split; by apply list_elem_of_In.
Qed.

(** ** The [won] flag follows the 2048 tile *)

Section Won.

Lemma step_won_mono o st : won st = true -> won (step o st).1 = true.
Proof.
  intros Hw. pose proof (step_wins o st) as H. unfold wins_left in H.
  rewrite Hw in H. destruct (won (step o st).1); [done|lia].
Qed.

Lemma rotateGrid_never v (g : Grid) d b :
  v ≠ 0%Z -> hasValue g v = false -> hasValue (rotateGrid g d b) v = false.
Proof.
  intros Hv. rewrite !hasValue_false_Forall.
  apply (rotateGrid_Forall (fun x => x ≠ v)). congruence.
Qed.

Lemma saveState_never v st :
  never_held v st ->
  Forall (fun s => hasValue (snap_grid s) v = false) (history (saveState st)).
Proof.
  intros [Hg Hh]. rewrite saveState_history.
  assert (Forall (fun s => hasValue (snap_grid s) v = false)
                 (history st ++ [snapshot_of st])).
  { apply Forall_app. split; [done|]. by apply Forall_cons. }
  case_bool_decide; [by apply Forall_tail|done].
Qed.

Lemma init_never_2048 r1 r2 st : 2 <= size st -> hasValue (grid (init r1 r2 st)) 2048 = false.
Proof.
  intros Hn. destruct (init_grid_facts r1 r2 st Hn) as (_ & _ & Hs).
  apply hasValue_false_Forall. eapply Forall_impl; [exact Hs|].
  intros row Hrow. eapply Forall_impl; [exact Hrow|]. cbn. lia.
Qed.

Lemma step_never_2048 o st :
  (won st = false -> never_held 2048 st) ->
  won (step o st).1 = false -> never_held 2048 (step o st).1.
Proof.
  intros Hinv Hw'.
  assert (Hw : won st = false).
  { destruct (won st) eqn:Hw; [|done]. by rewrite step_won_mono in Hw'. }
  specialize (Hinv Hw). revert Hw'. destruct o as [d r|]; cbn [step].
  - destruct (move d r st) as [[st' res] ev] eqn:Hmove. cbn [fst]. intros Hw'.
    destruct (over st) eqn:Hover.
    { rewrite move_over in Hmove by done. by injection Hmove as <- _ _. }
    destruct res as [[|]|].
    + split.
      * destruct (hasValue (grid st') 2048) eqn:Hh; [|done].
        rewrite (move_sets_won _ _ _ _ _ Hmove Hh) in Hw'. done.
      * rewrite (move_true_history _ _ _ _ _ Hmove). by apply saveState_never.
    + destruct (move_false _ _ _ _ _ Hmove) as (Hg & _ & Hh & _). split.
      * rewrite Hg. do 2 (apply rotateGrid_never; [done|]). apply Hinv.
      * rewrite Hh. by apply saveState_never.
    + rewrite move_unfold in Hmove by done.
      by destruct (res_moved (move_result d st)).
  - unfold undo. destruct (last (history st)) as [s|] eqn:Hlast; [|by intros _].
    cbn. intros _. destruct Hinv as [_ Hh].
    apply last_Some in Hlast as [h Hlast]. rewrite Hlast in *.
    apply Forall_app in Hh as [Hh Hs]. apply Forall_cons in Hs as [Hs _].
    split; cbn; [done|]. by rewrite removelast_last.
Qed.

Lemma session_never_2048 st : session st -> won st = false -> never_held 2048 st.
Proof.
  induction 1 as [r1 r2|o st _ IH].
  - intros _. split; [|by constructor]. unfold constructor.
    apply init_never_2048. cbn. lia.
  - by apply step_never_2048.
Qed.

Lemma run_session ops st : session st -> session (run ops st).1.
Proof.
  revert st. induction ops as [|o ops IH]; intros st Hst; [done|].
  rewrite run_cons. cbn [fst]. by apply IH, session_step.
Qed.

End Won.

(** X19. Within a session (a new engine, then [move] and [undo] calls),
    whenever the grid holds 2048 the [won] flag is set. *)
Theorem won_whenever_2048 st :
  session st -> hasValue (grid st) 2048 = true -> won st = true.
Proof.
  intros Hs Hh. destruct (won st) eqn:Hw; [done|].
  destruct (session_never_2048 st Hs Hw) as [Hg _]. congruence.
Qed.

Lemma won_whenever_2048_witness :
  session (run winning_session start_game).1
  /\ hasValue (grid (run winning_session start_game).1) 2048 = true
  /\ won (run winning_session start_game).1 = true.
Proof.
  assert (H : session (run winning_session start_game).1)
    by apply run_session, session_new.
  assert (Hh : hasValue (grid (run winning_session start_game).1) 2048 = true)
    by by vm_compute.
  split; [exact H|]. split; [exact Hh|]. exact (won_whenever_2048 _ H Hh).
Defined.

(** ** A reachable board always has tiles *)

Section TwoTiles.

Lemma saveState_two_tiles st :
  two_tiles_inv st ->
  Forall (fun s => 2 <= tiles (snap_grid s)) (history (saveState st)).
Proof.
  intros [Hg Hh]. rewrite saveState_history.
  assert (Forall (fun s => 2 <= tiles (snap_grid s)) (history st ++ [snapshot_of st])).
  { apply Forall_app. split; [done|]. by apply Forall_cons. }
  case_bool_decide; [by apply Forall_tail|done].
Qed.

Lemma step_two_tiles o st :
  shape_inv st -> two_tiles_inv st -> two_tiles_inv (step o st).1.
Proof.
  intros (Hsize & Hrect & _) Hinv. destruct o as [d r|]; cbn [step].
  - destruct (over st) eqn:Hover.
    { by rewrite move_over. }
    rewrite move_unfold by done.
    destruct (slide_grid_facts 3 d st Hsize Hrect) as (Hr1 & Ht & Hp & _ & Hz).
    pose proof (saveState_two_tiles st Hinv) as Hh.
    rewrite <- (slide_history d) in Hh.
    destruct Hinv as [Hg _].
    destruct (res_moved (move_result d st)) eqn:Hm; cbn [fst].
    + destruct (after_moved_fields r (res_merged (move_result d st)) (slide d st).1.1)
        as (_ & Hh' & _ & _ & Hg').
      split; [|by rewrite Hh'].
      destruct (zero_in_range _ _ Hr1 (Hz eq_refl)) as (i & j & Hi & Hj & Hc).
      destruct (slide_flags d st) as (Hsz & _).
      rewrite Hg', Hsz, Hsize, (addRandomTile_grid_tiles 4 r _ i j Hi Hj Hc). lia.
    + split; [|done]. destruct (move_result_unmoved _ _ Hm) as (_ & _ & Hmg).
      rewrite Hmg in Ht. cbn in Ht. lia.
  - destruct Hinv as [Hg Hh]. unfold undo.
    destruct (last (history st)) as [s|] eqn:Hlast; [|done].
    apply last_Some in Hlast as [h Hlast]. rewrite Hlast in *.
    apply Forall_app in Hh as [Hh Hs]. apply Forall_cons in Hs as [Hs _].
    split; cbn; [done|]. by rewrite removelast_last.
Qed.

Lemma reachable_two_tiles st : reachable st -> two_tiles_inv st.
Proof.
  induction 1 as [r1 r2|o st Hst IH|r1 r2 st Hst IH].
  - split; [|by constructor]. unfold constructor.
    destruct (init_grid_facts r1 r2
                (mkGame 4 [] 0 false false false [] 1 true false false false))
      as (_ & -> & _); cbn; lia.
  - apply step_two_tiles; [by apply reachable_shape|done].
  - destruct IH as [_ Hh]. split; [|done].
    destruct (reachable_shape st Hst) as (Hsize & _).
    destruct (init_grid_facts r1 r2 st) as (_ & -> & _); lia.
Qed.

Lemma tile_ok_ge_2 v : tile_ok v -> v ≠ 0%Z -> (2 <= v)%Z.
Proof.
  intros [->|(k & Hk & ->)] Hv; [done|].
  change 2%Z with (2 ^ 1)%Z at 1. apply Z.pow_le_mono_r; lia.
Qed.

Lemma tiles_pos_In (g : Grid) : 0 < tiles g -> exists v, In v (concat g) /\ v ≠ 0%Z.
Proof.
  rewrite tiles_concat. intros H.
  destruct (filter (fun val => val ≠ 0%Z) (concat g)) as [|v l] eqn:Hf; [cbn in H; lia|].
  assert (Hin : v ∈ filter (fun val => val ≠ 0%Z) (concat g)) by (rewrite Hf; by left).
  apply list_elem_of_filter in Hin as [Hv Hin]. exists v.
  split; [by apply list_elem_of_In|done].
Qed.

End TwoTiles.

(** X20. Every reachable grid holds at least two tiles, and [getMaxTile]
    returns on it a power of two that is at least 2. *)
Theorem reachable_has_tiles st :
  reachable st ->
  2 <= tiles (grid st)
  /\ exists m, getMaxTile (grid st) = Some m /\ (2 <= m)%Z /\ tile_ok m.
Proof.
  intros Hst. destruct (reachable_two_tiles st Hst) as [Ht _]. split; [done|].
  destruct (tiles_pos_In (grid st)) as (v & Hin & Hv); [lia|].
  destruct (reachable_inv st Hst) as [Hok _].
  assert (Hcell : forall x, In x (concat (grid st)) -> tile_ok x).
  { intros x (row & Hrow & Hx)%in_concat. unfold grid_ok in Hok.
    rewrite Forall_forall in Hok. apply list_elem_of_In, Hok in Hrow.
    rewrite Forall_forall in Hrow. by apply Hrow, list_elem_of_In. }
  unfold getMaxTile. pose proof (max_of_list (concat (grid st))) as H.
  destruct (foldr _ None (concat (grid st))) as [m|];
    [|cbn in H; rewrite H in Hin; destruct Hin].
  destruct H as [Hm Hall]. exists m. split; [done|]. split; [|by apply Hcell].
  pose proof (tile_ok_ge_2 v (Hcell v Hin) Hv).
  rewrite Forall_forall in Hall. apply list_elem_of_In, Hall in Hin. lia.
Qed.

Lemma reachable_has_tiles_witness :
  reachable (run win_session pair_game).1
  /\ 2 <= tiles (grid (run win_session pair_game).1).
Proof.
  assert (H : reachable (run win_session pair_game).1)
    by apply run_reachable, reach_new.
  split; [exact H|]. exact (proj1 (reachable_has_tiles _ H)).
Defined.

(** ** [isGameOver] means that no move is left *)

Section Stuck.

Lemma no_equal_neighbours_tail a l :
  no_equal_neighbours (a :: l) -> no_equal_neighbours l.
Proof. intros H l1 x y l2 ->. by apply (H (a :: l1) x y l2). Qed.

Lemma no_equal_neighbours_cons a b l :
  a ≠ b -> no_equal_neighbours (b :: l) -> no_equal_neighbours (a :: b :: l).
Proof.
  intros Hab H [|c l1] x y l2 Heq.
  - by injection Heq as <- <- _.
  - injection Heq as _ Heq. by apply (H l1 x y l2).
Qed.

Lemma no_equal_neighbours_rev l :
  no_equal_neighbours l -> no_equal_neighbours (rev l).
Proof.
  intros H l1 x y l2 Heq. apply (f_equal (@rev Z)) in Heq.
  rewrite rev_involutive, rev_app_distr in Heq. cbn in Heq.
  rewrite <- !app_assoc in Heq. cbn in Heq.
  intros ->. by apply (H (rev l2) y y (rev l1)).
Qed.

(** The scan merges nothing exactly on a list without equal neighbours. *)
Lemma merge_scan_moved_neighbours l :
  scan_moved (merge_scan l) = false <-> no_equal_neighbours l.
Proof.
  induction l as [| a | a rest IH | a b rest Hab IH] using merge_scan_ind.
  - split; [|done]. by intros _ [|??] ????.
  - split; [|done]. by intros _ [|?[|??]] ????.
  - rewrite merge_scan_eq. cbn [scan_moved]. split; [done|].
    intros H. by destruct (H [] a a rest).
  - rewrite merge_scan_ne by done. cbn [scan_moved]. rewrite IH. split.
    + by apply no_equal_neighbours_cons.
    + apply no_equal_neighbours_tail.
Qed.

(** [this.moved] does not depend on the row index. *)
Lemma moveLeft_row_moved_index n i j row :
  res_moved (moveLeft_row n i row) = res_moved (moveLeft_row n j row).
Proof. reflexivity. Qed.

Lemma moveLeft_from_moved_rows n i (g : Grid) :
  res_moved (moveLeft_from n i g) = false
  <-> Forall (fun row => res_moved (moveLeft_row n 0 row) = false) g.
Proof.
  revert i. induction g as [|row g IH]; intros i; [by split|].
  cbn [moveLeft_from res_moved]. rewrite orb_false_iff, Forall_cons, IH.
  by rewrite (moveLeft_row_moved_index n i 0).
Qed.

(** A full row without equal neighbours stays as it is. *)
Lemma moveLeft_row_stuck n row :
  length row = n -> Forall (fun v => v ≠ 0%Z) row -> no_equal_neighbours row ->
  res_moved (moveLeft_row n 0 row) = false.
Proof.
  intros Hlen Hnz Hne. unfold moveLeft_row. cbn [res_moved].
  rewrite (filter_nonzero_id row Hnz).
  apply merge_scan_moved_neighbours in Hne.
  destruct (merge_scan_unmoved row Hne) as (Hrow & _).
  rewrite Hne, Hrow. cbn [orb]. apply negb_false_iff, arraysEqual_spec.
  unfold pad. replace (n - length row) with 0 by lia. cbn. by rewrite app_nil_r.
Qed.

(** What a row that stays as it is looks like. *)
Lemma moveLeft_row_unmoved_shape n row :
  res_moved (moveLeft_row n 0 row) = false ->
  exists nz k,
    row = nz ++ replicate k 0%Z /\ Forall (fun v => v ≠ 0%Z) nz
    /\ no_equal_neighbours nz.
Proof.
  intros Hm. pose proof (moveLeft_row_unmoved n 0 row Hm) as (Hg & _).
  rewrite moveLeft_row_new_row in Hg. injection Hg as Hrow.
  unfold moveLeft_row in Hm. cbn [res_moved] in Hm.
  apply orb_false_iff in Hm as [Hscan _].
  destruct (merge_scan_unmoved _ Hscan) as (Hs & _).
  apply merge_scan_moved_neighbours in Hscan.
  rewrite Hs in Hrow. eexists _, _. split; [symmetry; exact Hrow|].
  split; [apply filter_nonzero_all|done].
Qed.

Lemma replicate_snoc {A} k (x : A) : replicate k x ++ [x] = x :: replicate k x.
Proof. induction k as [|k IH]; [done|]. cbn. by rewrite IH. Qed.

Lemma rev_replicate {A} k (x : A) : rev (replicate k x) = replicate k x.
Proof.
  induction k as [|k IH]; [done|]. cbn [replicate rev].
  by rewrite IH, replicate_snoc.
Qed.

Lemma In_replicate {A} k (x y : A) : In y (replicate k x) -> y = x.
Proof. intros H%list_elem_of_In%elem_of_replicate. by destruct H. Qed.

(** A row holding both a zero and a tile moves to the left or to the
    right. *)
Lemma row_with_gap_moves n row :
  In 0%Z row -> (exists v, In v row /\ v ≠ 0%Z) ->
  res_moved (moveLeft_row n 0 row) = false ->
  res_moved (moveLeft_row n 0 (rev row)) = false -> False.
Proof.
  intros H0 (v & Hv & Hv0) HL HR.
  destruct (moveLeft_row_unmoved_shape n row HL) as (nz & k & Hrow & Hnz & _).
  destruct (moveLeft_row_unmoved_shape n (rev row) HR) as (nz' & k' & Hrev & Hnz' & _).
  destruct k as [|k].
  { cbn in Hrow. rewrite app_nil_r in Hrow. subst nz.
    rewrite Forall_forall in Hnz. apply (Hnz 0%Z); [by apply list_elem_of_In|done]. }
  destruct nz as [|a nz].
  { cbn [app] in Hrow. subst row. by apply In_replicate in Hv. }
  apply Forall_cons in Hnz as [Ha _].
  rewrite Hrow, rev_app_distr, rev_replicate in Hrev.
  destruct nz' as [|b nz'].
  - cbn [app] in Hrev.
    assert (Hin : In a (replicate k' 0%Z)).
    { rewrite <- Hrev. apply in_or_app. right. apply in_rev.
      rewrite rev_involutive. by left. }
    by apply In_replicate in Hin.
  - cbn in Hrev. injection Hrev as <- _.
    by apply Forall_cons in Hnz' as [? _].
Qed.

Lemma concat_nonzero (g : Grid) :
  hasValue g 0 = false -> Forall (Forall (fun v => v ≠ 0%Z)) g.
Proof. apply hasValue_false_Forall. Qed.

(** Neighbours in a row and in a column, in terms of [cell]. *)
Lemma row_neighbours n (g : Grid) i row :
  g !! i = Some row -> length row = n ->
  (forall j, j + 1 < n -> cell g i j <> cell g i (j + 1)) ->
  no_equal_neighbours row.
Proof.
  intros Hrow Hlen H l1 x y l2 Heq ->.
  apply (H (length l1)).
  - rewrite <- Hlen, Heq, length_app. cbn. lia.
  - unfold cell. rewrite Hrow, Heq.
    rewrite lookup_app_r by lia. rewrite lookup_app_r by lia.
    replace (length l1 - length l1) with 0 by lia.
    by replace (length l1 + 1 - length l1) with 1 by lia.
Qed.

Lemma column_neighbours n (g : Grid) c :
  rect n n g -> c < n ->
  (forall i, i + 1 < n -> cell g i c <> cell g (i + 1) c) ->
  no_equal_neighbours (map (fun row => nth c row 0%Z) g).
Proof.
  intros [Hl Hr] Hc H l1 x y l2 Heq Hxy.
  apply map_eq_app in Heq as (g1 & g' & -> & <- & Heq).
  apply map_eq_cons in Heq as (r1 & g'' & -> & <- & Heq).
  apply map_eq_cons in Heq as (r2 & g2 & -> & <- & _).
  apply Forall_app in Hr as [_ Hr]. apply Forall_cons in Hr as [Hr1 Hr].
  apply Forall_cons in Hr as [Hr2 _].
  rewrite length_app in Hl. cbn in Hl.
  apply (H (length g1)); [lia|]. unfold cell.
  rewrite lookup_app_r by lia. rewrite lookup_app_r by lia.
  replace (length g1 - length g1) with 0 by lia.
  replace (length g1 + 1 - length g1) with 1 by lia. cbn.
  destruct (lookup_lt_is_Some_2 r1 c) as [v1 Hv1]; [lia|].
  destruct (lookup_lt_is_Some_2 r2 c) as [v2 Hv2]; [lia|].
  rewrite Hv1, Hv2. f_equal.
  rewrite <- (nth_lookup_Some _ _ 0%Z _ Hv1), <- (nth_lookup_Some _ _ 0%Z _ Hv2).
  done.
Qed.

Lemma mirror_stuck n (g : Grid) :
  Forall (fun row => length row = n /\ Forall (fun v => v ≠ 0%Z) row
                     /\ no_equal_neighbours row) g ->
  Forall (fun row => res_moved (moveLeft_row n 0 row) = false) g
  /\ Forall (fun row => res_moved (moveLeft_row n 0 row) = false)
            (map (fun row => rev row) g).
Proof.
  intros H. split.
  - eapply Forall_impl; [exact H|]. intros row (Hl & Hz & Hn).
    by apply moveLeft_row_stuck.
  - apply Forall_map. eapply Forall_impl; [exact H|]. intros row (Hl & Hz & Hn).
    cbn. apply moveLeft_row_stuck.
    + by rewrite length_rev.
    + apply Forall_forall. intros x Hx%list_elem_of_In%in_rev.
      rewrite Forall_forall in Hz. by apply Hz, list_elem_of_In.
    + by apply no_equal_neighbours_rev.
Qed.

End Stuck.

Section StuckGrid.

Lemma unmoved_full_no_neighbours n l :
  res_moved (moveLeft_row n 0 l) = false -> Forall (fun v => v ≠ 0%Z) l ->
  no_equal_neighbours l.
Proof.
  intros Hm Hnz.
  destruct (moveLeft_row_unmoved_shape n l Hm) as (nz & k & -> & _ & Hne).
  destruct k as [|k]; [by rewrite app_nil_r|].
  apply Forall_app in Hnz as [_ Hz]. by apply Forall_cons in Hz as [? _].
Qed.

Lemma neighbours_split (l : list Z) j x y :
  l !! j = Some x -> l !! (S j) = Some y -> exists l1 l2, l = l1 ++ x :: y :: l2.
Proof.
  intros Hx Hy. exists (take j l), (drop (S (S j)) l).
  rewrite <- (take_drop_middle l j x Hx) at 1. do 2 f_equal.
  rewrite <- (take_drop_middle l (S j) y Hy) at 1.
  rewrite drop_app_length'; [done|]. rewrite length_take.
  apply lookup_lt_Some in Hy. lia.
Qed.

(** The rows and the columns of a square grid, and the four grids
    [moveLeft] is called on. *)
Lemma can_move_rows n (g : Grid) :
  rect (S n) (S n) g ->
  (can_move (S n) g Left = false
   <-> Forall (fun row => res_moved (moveLeft_row (S n) 0 row) = false) g)
  /\ (can_move (S n) g Right = false
      <-> Forall (fun row => res_moved (moveLeft_row (S n) 0 (rev row)) = false) g)
  /\ (can_move (S n) g Up = false
      <-> Forall (fun col => res_moved (moveLeft_row (S n) 0 col) = false)
                 (columns (S n) g))
  /\ (can_move (S n) g Down = false
      <-> Forall (fun col => res_moved (moveLeft_row (S n) 0 (rev col)) = false)
                 (columns (S n) g)).
Proof.
  intros Hg. unfold can_move, moveLeft. cbn [rotateGrid].
  rewrite (transpose_columns _ _ _ Hg).
  rewrite !moveLeft_from_moved_rows, !Forall_map. done.
Qed.

Lemma columns_lookup m (g : Grid) c :
  c < m -> columns m g !! c = Some (map (fun row => nth c row 0%Z) g).
Proof.
  intros Hc. unfold columns. by rewrite list_lookup_fmap, lookup_seq_lt.
Qed.

Lemma column_cell n (g : Grid) i c :
  rect n n g -> i < n -> c < n ->
  map (fun row => nth c row 0%Z) g !! i = cell g i c.
Proof.
  intros [Hl Hr] Hi Hc. unfold cell. rewrite list_lookup_fmap.
  destruct (lookup_lt_is_Some_2 g i) as [row Hrow]; [lia|]. rewrite Hrow. cbn.
  assert (length row = n) as Hlen by (eapply Forall_lookup_1 in Hr; eauto).
  destruct (lookup_lt_is_Some_2 row c) as [v Hv]; [lia|].
  rewrite Hv. f_equal. by apply nth_lookup_Some.
Qed.

Lemma gameOver_rows_stuck n (g : Grid) :
  rect (S n) (S n) g -> isGameOver (S n) g = true ->
  Forall (fun row => length row = S n /\ Forall (fun v => v ≠ 0%Z) row
                     /\ no_equal_neighbours row) g
  /\ Forall (fun col => length col = S n /\ Forall (fun v => v ≠ 0%Z) col
                        /\ no_equal_neighbours col) (columns (S n) g).
Proof.
  intros Hg Hover.
  assert (Hz : hasValue g 0 = false).
  { unfold isGameOver in Hover. by destruct (hasValue g 0). }
  apply concat_nonzero in Hz.
  apply (isGameOver_spec _ _ Hg) in Hover as (_ & Hrow & Hcol).
  pose proof Hg as [Hl Hr]. split.
  - apply Forall_lookup. intros i row Hi.
    assert (i < S n) by (apply lookup_lt_Some in Hi; lia).
    assert (length row = S n) as Hlen by (eapply Forall_lookup_1 in Hr; eauto).
    split; [done|]. split; [by eapply Forall_lookup_1 in Hz; eauto|].
    eapply row_neighbours; eauto.
  - apply Forall_lookup. intros c col Hc.
    assert (c < S n) as Hcn.
    { apply lookup_lt_Some in Hc. unfold columns in Hc.
      by rewrite length_map, length_seq in Hc. }
    rewrite columns_lookup in Hc by done. injection Hc as <-.
    split; [by rewrite length_map|]. split.
    + apply Forall_map. apply Forall_lookup. intros i row Hi. cbn.
      assert (length row = S n) as Hlen by (eapply Forall_lookup_1 in Hr; eauto).
      eapply Forall_lookup_1 in Hz; [|exact Hi].
      rewrite Forall_forall in Hz. apply Hz, list_elem_of_In, nth_In. lia.
    + apply (column_neighbours (S n)); auto.
Qed.

End StuckGrid.

(** X21. On a square grid, when [isGameOver] returns [true] no direction
    is left: [moveLeft] would not set [this.moved] for any of the four. *)
Theorem gameOver_no_move_left n (g : Grid) d :
  rect (S n) (S n) g -> isGameOver (S n) g = true -> can_move (S n) g d = false.
Proof.
  intros Hg Hover.
  destruct (gameOver_rows_stuck n g Hg Hover) as [Hrows Hcols].
  destruct (can_move_rows n g Hg) as (HL & HR & HU & HD).
  destruct (mirror_stuck _ _ Hrows) as [H1 H2].
  destruct (mirror_stuck _ _ Hcols) as [H3 H4].
  rewrite Forall_map in H2, H4.
  destruct d; [by apply HL|by apply HR|by apply HU|by apply HD].
Qed.

Lemma gameOver_no_move_left_witness :
  rect 4 4 full_grid /\ isGameOver 4 full_grid = true
  /\ can_move 4 full_grid Down = false.
Proof.
  assert (Hg : rect 4 4 full_grid) by (split; [done|by repeat constructor]).
  assert (Ho : isGameOver 4 full_grid = true) by by vm_compute.
  split; [exact Hg|]. split; [exact Ho|].
  exact (gameOver_no_move_left 3 full_grid Down Hg Ho).
Defined.

(** X22. Conversely, on a square grid that holds a tile, if no direction
    would set [this.moved] then [isGameOver] returns [true]: the player is
    never left without a move and without the game being over. *)
Theorem no_move_left_gameOver n (g : Grid) :
  rect (S n) (S n) g -> 0 < tiles g ->
  (forall d, can_move (S n) g d = false) -> isGameOver (S n) g = true.
Proof.
  intros Hg Ht Hstuck. pose proof Hg as [Hl Hr].
  destruct (can_move_rows n g Hg) as (HL & HR & HU & HD).
  apply HL in Hstuck as HrowsL. apply HR in Hstuck as HrowsR.
  apply HU in Hstuck as HcolsU. apply HD in Hstuck as HcolsD.
  clear HL HR HU HD.
  assert (Hfull : forall i j, i < S n -> j < S n -> cell g i j <> Some 0%Z).
  { intros i j Hi Hj (row & Hrow & H0)%cell_Some.
    destruct (tiles_pos_In g Ht) as (v & (row' & Hrow' & Hv)%in_concat & Hv0).
    apply list_elem_of_In, list_elem_of_lookup in Hrow' as [i' Hi'].
    apply list_elem_of_In, list_elem_of_lookup in Hv as [j' Hj'].
    assert (length row = S n) by (eapply Forall_lookup_1 in Hr; eauto).
    assert (length row' = S n) by (eapply Forall_lookup_1 in Hr; eauto).
    assert (j' < S n) by (apply lookup_lt_Some in Hj'; lia).
    destruct (decide (nth j' row 0%Z = 0%Z)) as [Hzero|Hnz].
    - (* column [j'] holds the zero of row [i] and the tile of row [i'] *)
      apply (row_with_gap_moves (S n) (map (fun r => nth j' r 0%Z) g)).
      + assert (Hin : In (nth j' row 0%Z) (map (fun r => nth j' r 0%Z) g)).
        { apply (in_map (fun r => nth j' r 0%Z)).
          apply list_elem_of_In. by eapply list_elem_of_lookup_2. }
        by rewrite Hzero in Hin.
      + exists v. split; [|done].
        assert (Hin : In (nth j' row' 0%Z) (map (fun r => nth j' r 0%Z) g)).
        { apply (in_map (fun r => nth j' r 0%Z)).
          apply list_elem_of_In. by eapply list_elem_of_lookup_2. }
        by rewrite (nth_lookup_Some _ _ 0%Z _ Hj') in Hin.
      + eapply Forall_lookup_1 in HcolsU; [exact HcolsU|by apply columns_lookup].
      + eapply Forall_lookup_1 in HcolsD; [exact HcolsD|by apply columns_lookup].
    - (* row [i] holds a zero and a tile *)
      apply (row_with_gap_moves (S n) row).
      + apply list_elem_of_In. by eapply list_elem_of_lookup_2.
      + exists (nth j' row 0%Z). split; [apply nth_In; lia|done].
      + by eapply Forall_lookup_1 in HrowsL.
      + by eapply Forall_lookup_1 in HrowsR. }
  assert (Hnz : Forall (Forall (fun v => v ≠ 0%Z)) g).
  { apply hasValue_false_Forall, (hasValue_false (S n)); done. }
  apply (isGameOver_spec _ _ Hg). split; [done|]. split.
  - intros i j Hi Hj Heq.
    destruct (cell_is_Some (S n) g i j Hg) as [x Hx]; [lia|lia|].
    rewrite Hx in Heq. symmetry in Heq.
    apply cell_Some in Hx as (row & Hrow & Hx).
    apply cell_Some in Heq as (row' & Hrow' & Hy).
    rewrite Hrow in Hrow'. injection Hrow' as <-.
    rewrite Nat.add_1_r in Hy.
    destruct (neighbours_split row j x x Hx Hy) as (l1 & l2 & Hsplit).
    eapply (unmoved_full_no_neighbours (S n) row); [| |exact Hsplit|done].
    + by eapply Forall_lookup_1 in HrowsL.
    + by eapply Forall_lookup_1 in Hnz.
  - intros i j Hi Hj Heq.
    destruct (cell_is_Some (S n) g i j Hg) as [x Hx]; [lia|lia|].
    rewrite Hx in Heq. symmetry in Heq.
    rewrite <- (column_cell (S n)) in Hx, Heq by (done || lia).
    rewrite Nat.add_1_r in Heq.
    destruct (neighbours_split _ i x x Hx Heq) as (l1 & l2 & Hsplit).
    eapply (unmoved_full_no_neighbours (S n)); [| |exact Hsplit|done].
    + eapply Forall_lookup_1 in HcolsU; [exact HcolsU|by apply columns_lookup].
    + apply Forall_map. apply Forall_lookup. intros k row Hk. cbn.
      assert (length row = S n) by (eapply Forall_lookup_1 in Hr; eauto).
      eapply Forall_lookup_1 in Hnz; [|exact Hk].
      rewrite Forall_forall in Hnz. apply Hnz, list_elem_of_In, nth_In. lia.
Qed.

Lemma no_move_left_gameOver_witness :
  rect 4 4 full_grid /\ 0 < tiles full_grid
  /\ (forall d, can_move 4 full_grid d = false)
  /\ isGameOver 4 full_grid = true.
Proof.
  assert (Hg : rect 4 4 full_grid) by (split; [done|by repeat constructor]).
  assert (Ht : 0 < tiles full_grid) by (vm_compute; lia).
  assert (Hs : forall d, can_move 4 full_grid d = false)
    by (intros []; by vm_compute).
  split; [exact Hg|]. split; [exact Ht|]. split; [exact Hs|].
  exact (no_move_left_gameOver 3 full_grid Hg Ht Hs).
Defined.

End Game2048.

(** * Facts about the storage manager *)
Module StorageManagerFacts.
Import StorageManager.

Lemma or_zero_id x : or_zero x = x.
Proof. unfold or_zero. destruct (Z.eqb_spec x 0); congruence. Qed.

Lemma includes_id_In ids id : includes_id ids id = true <-> In id ids.
Proof.
  unfold includes_id. rewrite existsb_exists. split.
  - intros (x & Hx & Heq). apply bool_decide_eq_true in Heq. by subst.
  - intros H. exists id. split; [done|]. by apply bool_decide_eq_true.
Qed.

Lemma apply_calls_cons c cs ls :
  apply_calls (c :: cs) ls = apply_calls cs (apply_call c ls).
Proof. reflexivity. Qed.

Lemma updateBestScore_best score ls :
  bestScore (loadData (updateBestScore score ls).1)
  = Z.max (bestScore (loadData ls)) score.
Proof.
  unfold updateBestScore. destruct (Z.ltb_spec (bestScore (loadData ls)) score); cbn; lia.
Qed.

Lemma apply_call_best c ls :
  is_clear c = false ->
  bestScore (loadData (apply_call c ls))
  = match c with
    | UpdateBestScore s => Z.max (bestScore (loadData ls)) s
    | _ => bestScore (loadData ls)
    end.
Proof.
  destruct c as [s| | |id|]; intros Hc; [| | | |done].
  - apply updateBestScore_best.
  - reflexivity.
  - reflexivity.
  - cbn. unfold unlockAchievement. by destruct (negb _).
Qed.

Lemma foldl_max_le (l : list Z) b : (b <= foldl Z.max b l)%Z.
Proof.
  revert b. induction l as [|x l IH]; intros b; cbn; [lia|].
  specialize (IH (Z.max b x)). lia.
Qed.

Lemma foldl_max_In (l : list Z) b x : In x l -> (x <= foldl Z.max b l)%Z.
Proof.
  revert b. induction l as [|y l IH]; intros b; [done|].
  intros [->|Hx]; cbn.
  - pose proof (foldl_max_le l (Z.max b x)). lia.
  - by apply IH.
Qed.

(** X23. Without [clearData], the best score read back after any sequence of
    calls is the largest of the best score before and the scores passed to
    [updateBestScore]: it never goes down and no submitted score exceeds
    it. *)
Theorem best_score_is_maximum cs ls :
  forallb (fun c => negb (is_clear c)) cs = true ->
  getBestScore (apply_calls cs ls) = foldl Z.max (getBestScore ls) (scores_of cs)
  /\ (getBestScore ls <= getBestScore (apply_calls cs ls))%Z
  /\ Forall (fun s => (s <= getBestScore (apply_calls cs ls))%Z) (scores_of cs).
Proof.
  intros Hcs.
  assert (Heq : getBestScore (apply_calls cs ls)
                = foldl Z.max (getBestScore ls) (scores_of cs)).
  { unfold getBestScore. rewrite !or_zero_id. revert ls Hcs.
    induction cs as [|c cs IH]; intros ls; [done|].
    cbn [forallb]. intros [Hc Hcs]%andb_true_iff. apply negb_true_iff in Hc.
    rewrite apply_calls_cons, (IH _ Hcs), (apply_call_best c ls Hc).
    by destruct c. }
  split; [done|]. rewrite Heq. split; [apply foldl_max_le|].
  apply Forall_forall. intros s Hs%list_elem_of_In. by apply foldl_max_In.
Qed.

Lemma best_score_is_maximum_witness :
  getBestScore (apply_calls [UpdateBestScore 40; IncrementGamesPlayed;
                             UpdateBestScore 12; UnlockAchievement "first-win"]
                            None) = 40%Z.
Proof.
  exact (proj1 (best_score_is_maximum
                  [UpdateBestScore 40; IncrementGamesPlayed;
                   UpdateBestScore 12; UnlockAchievement "first-win"]
                  None eq_refl)).
Defined.

Lemma unlockAchievement_ids id ls :
  getAchievements (unlockAchievement id ls).1
  = if includes_id (getAchievements ls) id then getAchievements ls
    else getAchievements ls ++ [id].
Proof.
  unfold unlockAchievement, getAchievements.
  by destruct (includes_id (achievements (loadData ls)) id).
Qed.

Lemma apply_call_NoDup c ls :
  NoDup (getAchievements ls) -> NoDup (getAchievements (apply_call c ls)).
Proof.
  intros Hnd. destruct c as [s| | |id|]; cbn [apply_call].
  - unfold updateBestScore. by destruct (_ <? _)%Z.
  - exact Hnd.
  - exact Hnd.
  - rewrite unlockAchievement_ids.
    destruct (includes_id (getAchievements ls) id) eqn:Hin; [done|].
    apply NoDup_app. split; [done|]. split; [|apply NoDup_singleton].
    intros x Hx ->%list_elem_of_singleton.
    apply not_true_iff_false in Hin. apply Hin, includes_id_In.
    by apply list_elem_of_In.
  - constructor.
Qed.

(** X24. If the stored achievements hold no id twice (as in an empty
    store), they never do after any sequence of calls; and
    [unlockAchievement] returns [true] exactly when the id was not stored
    yet, after which it is stored. *)
Theorem achievements_never_duplicated cs ls id :
  NoDup (getAchievements ls) ->
  NoDup (getAchievements (apply_calls cs ls))
  /\ ((unlockAchievement id ls).2 = true <-> ~ In id (getAchievements ls))
  /\ In id (getAchievements (unlockAchievement id ls).1).
Proof.
  intros Hnd. split; [|split].
  - revert ls Hnd. induction cs as [|c cs IH]; intros ls Hnd; [done|].
    rewrite apply_calls_cons. by apply IH, apply_call_NoDup.
  - rewrite <- includes_id_In. unfold unlockAchievement, getAchievements.
    destruct (includes_id (achievements (loadData ls)) id); cbn; split; done.
  - rewrite unlockAchievement_ids.
    destruct (includes_id (getAchievements ls) id) eqn:Hin.
    + by apply includes_id_In.
    + apply in_or_app. right. by left.
Qed.

Lemma achievements_never_duplicated_witness :
  NoDup (getAchievements None)
  /\ NoDup (getAchievements
              (apply_calls [UnlockAchievement "first-win"; UnlockAchievement "survivor";
                            UnlockAchievement "first-win"] None)).
Proof.
  assert (H : NoDup (getAchievements None)) by constructor.
  split; [exact H|].
  exact (proj1 (achievements_never_duplicated
                  [UnlockAchievement "first-win"; UnlockAchievement "survivor";
                   UnlockAchievement "first-win"] None "x" H)).
Defined.

(** X25. Unlocking an achievement a second time returns [false] and leaves
    the store as it is. *)
Theorem unlockAchievement_twice id ls :
  unlockAchievement id (unlockAchievement id ls).1
  = ((unlockAchievement id ls).1, false).
Proof.
  unfold unlockAchievement at 1.
  assert (H : includes_id (achievements (loadData (unlockAchievement id ls).1)) id = true).
  { apply includes_id_In. change (achievements (loadData ?s)) with (getAchievements s).
    rewrite unlockAchievement_ids.
    destruct (includes_id (getAchievements ls) id) eqn:Hin.
    - by apply includes_id_In.
    - apply in_or_app. right. by left. }
  by rewrite H.
Qed.

Lemma apply_call_counts c ls :
  is_clear c = false ->
  gamesPlayed (loadData (apply_call c ls))
  = (gamesPlayed (loadData ls) + if is_played c then 1 else 0)%Z
  /\ gamesWon (loadData (apply_call c ls))
     = (gamesWon (loadData ls) + if is_won c then 1 else 0)%Z.
Proof.
  destruct c as [s| | |id|]; intros Hc; [| | | |done]; cbn.
  - unfold updateBestScore. destruct (_ <? _)%Z; cbn; lia.
  - lia.
  - lia.
  - unfold unlockAchievement. destruct (negb _); cbn; lia.
Qed.

(** X26. Without [clearData], the statistics read back after any sequence
    of calls are the ones before plus the number of [incrementGamesPlayed]
    and of [incrementGamesWon] calls. *)
Theorem statistics_count_calls cs ls :
  forallb (fun c => negb (is_clear c)) cs = true ->
  getStatistics (apply_calls cs ls)
  = ((getStatistics ls).1 + count_calls is_played cs,
     (getStatistics ls).2 + count_calls is_won cs)%Z.
Proof.
  unfold getStatistics, count_calls. cbn [fst snd]. rewrite !or_zero_id.
  revert ls. induction cs as [|c cs IH]; intros ls.
  - intros _. cbn. f_equal; lia.
  - cbn [forallb]. intros [Hc Hcs]%andb_true_iff. apply negb_true_iff in Hc.
    rewrite apply_calls_cons, (IH _ Hcs).
    destruct (apply_call_counts c ls Hc) as [-> ->].
    cbn [List.filter]. destruct (is_played c), (is_won c); cbn [length]; f_equal; lia.
Qed.

Lemma statistics_count_calls_witness :
  getStatistics (apply_calls [IncrementGamesPlayed; IncrementGamesWon;
                              UpdateBestScore 8; IncrementGamesPlayed] None)
  = (2, 1)%Z.
Proof.
  exact (statistics_count_calls
           [IncrementGamesPlayed; IncrementGamesWon;
            UpdateBestScore 8; IncrementGamesPlayed] None eq_refl).
Defined.

End StorageManagerFacts.

(** * Facts about the application *)
Module AppFacts.
Import StorageManager StorageManagerFacts Game2048 Game2048.App.

(** ** The storage under the page's handlers *)

Lemma getBestScore_best ls : getBestScore ls = bestScore (loadData ls).
Proof. apply or_zero_id. Qed.

Lemma unlock_fields id a :
  game (unlock id a) = game a /\ moveCount (unlock id a) = moveCount a
  /\ gameOverHidden (unlock id a) = gameOverHidden a
  /\ winHidden (unlock id a) = winHidden a
  /\ getBestScore (storage (unlock id a)) = getBestScore (storage a)
  /\ gamesWon (loadData (storage (unlock id a))) = gamesWon (loadData (storage a))
  /\ In id (getAchievements (storage (unlock id a)))
  /\ (forall x, In x (getAchievements (storage a)) ->
                In x (getAchievements (storage (unlock id a)))).
Proof.
  unfold unlock. cbn [game moveCount gameOverHidden winHidden storage set_storage].
  rewrite !getBestScore_best, unlockAchievement_ids.
  unfold unlockAchievement.
  destruct (includes_id (achievements (loadData (storage a))) id) eqn:Hin;
    cbn [negb fst]; unfold getAchievements; rewrite Hin; repeat split; try done;
    try (by apply includes_id_In);
    try (apply in_or_app; right; by left);
    try (intros x Hx; apply in_or_app; by left).
Qed.

Lemma same_but_achievements_refl a : same_but_achievements a a.
Proof. by repeat split. Qed.

Lemma same_but_achievements_unlock id a a' :
  same_but_achievements a a' -> same_but_achievements a (unlock id a').
Proof.
  intros (Hg & Hm & Ho & Hw & Hb & Hn & Hin).
  destruct (unlock_fields id a') as (Hg' & Hm' & Ho' & Hw' & Hb' & Hn' & _ & Hin').
  repeat split; try congruence. auto.
Qed.

Lemma checkAchievements_keeps a : same_but_achievements a (checkAchievements a).
Proof.
  unfold checkAchievements.
  set (m := getMaxTile (grid (game a))). clearbody m.
  assert (H1 : same_but_achievements a
                 (if maxTile_ge m 2048 then unlock "first-win" a else a)).
  { destruct (maxTile_ge m 2048);
      [apply same_but_achievements_unlock|]; apply same_but_achievements_refl. }
  revert H1. generalize (if maxTile_ge m 2048 then unlock "first-win" a else a).
  intros a1 H1.
  assert (H2 : same_but_achievements a
                 (if maxTile_ge m 2048 && (moveCount a1 <=? 100)%Z
                  then unlock "speed-demon" a1 else a1)).
  { destruct (_ && _); [by apply same_but_achievements_unlock|done]. }
  revert H2. generalize (if maxTile_ge m 2048 && (moveCount a1 <=? 100)%Z
                         then unlock "speed-demon" a1 else a1).
  intros a2 H2.
  assert (H3 : same_but_achievements a
                 (if maxTile_ge m 4096 then unlock "high-roller" a2 else a2)).
  { destruct (maxTile_ge m 4096); [by apply same_but_achievements_unlock|done]. }
  revert H3. generalize (if maxTile_ge m 4096 then unlock "high-roller" a2 else a2).
  intros a3 H3.
  destruct (500 <=? moveCount a3)%Z; [by apply same_but_achievements_unlock|done].
Qed.

(** With 2048 on the board, [checkAchievements] stores ['first-win']. *)
Lemma checkAchievements_first_win a :
  hasValue (grid (game a)) 2048 = true ->
  In "first-win" (getAchievements (storage (checkAchievements a))).
Proof.
  intros Hh. unfold checkAchievements.
  assert (Hge : maxTile_ge (getMaxTile (grid (game a))) 2048 = true).
  { unfold getMaxTile. pose proof (max_of_list (concat (grid (game a)))) as H.
    apply hasValue_In in Hh.
    destruct (foldr _ None (concat (grid (game a)))) as [m|];
      [|cbn in H; rewrite H in Hh; destruct Hh].
    destruct H as [_ Hall]. rewrite Forall_forall in Hall.
    apply Z.leb_le. by apply Hall, list_elem_of_In. }
  rewrite Hge. cbn [andb].
  destruct (unlock_fields "first-win" a) as (_ & _ & _ & _ & _ & _ & Hin & _).
  revert Hin. generalize (unlock "first-win" a). intros a1 Hin.
  assert (H2 : same_but_achievements a1
                 (if (moveCount a1 <=? 100)%Z then unlock "speed-demon" a1 else a1)).
  { destruct (_ <=? _)%Z;
      [apply same_but_achievements_unlock|]; apply same_but_achievements_refl. }
  revert H2. generalize (if (moveCount a1 <=? 100)%Z
                         then unlock "speed-demon" a1 else a1).
  intros a2 H2.
  assert (H3 : same_but_achievements a1
                 (if maxTile_ge (getMaxTile (grid (game a))) 4096
                  then unlock "high-roller" a2 else a2)).
  { destruct (maxTile_ge _ 4096); [by apply same_but_achievements_unlock|done]. }
  revert H3. generalize (if maxTile_ge (getMaxTile (grid (game a))) 4096
                         then unlock "high-roller" a2 else a2).
  intros a3 H3.
  assert (H4 : same_but_achievements a1
                 (if (500 <=? moveCount a3)%Z then unlock "survivor" a3 else a3)).
  { destruct (500 <=? moveCount a3)%Z; [by apply same_but_achievements_unlock|done]. }
  destruct H4 as (_ & _ & _ & _ & _ & _ & Hincl). by apply Hincl.
Qed.

Lemma updateScore_fields s a :
  game (updateScore s a) = game a /\ moveCount (updateScore s a) = moveCount a
  /\ gameOverHidden (updateScore s a) = gameOverHidden a
  /\ winHidden (updateScore s a) = winHidden a
  /\ getBestScore (storage (updateScore s a)) = Z.max (getBestScore (storage a)) s
  /\ gamesWon (loadData (storage (updateScore s a))) = gamesWon (loadData (storage a))
  /\ getAchievements (storage (updateScore s a)) = getAchievements (storage a).
Proof.
  unfold updateScore. rewrite !getBestScore_best.
  destruct (Z.ltb_spec (bestScore (loadData (storage a))) s) as [Hlt|Hge].
  - cbn [game moveCount gameOverHidden winHidden storage set_storage].
    rewrite updateBestScore_best. unfold updateBestScore.
    destruct (Z.ltb_spec (bestScore (loadData (storage a))) s); [|lia].
    repeat split; done.
  - repeat split; try done. lia.
Qed.

Lemma updateBestScore_fields s ls :
  getBestScore (updateBestScore s ls).1 = Z.max (getBestScore ls) s
  /\ gamesWon (loadData (updateBestScore s ls).1) = gamesWon (loadData ls)
  /\ getAchievements (updateBestScore s ls).1 = getAchievements ls.
Proof.
  rewrite !getBestScore_best, updateBestScore_best. unfold updateBestScore.
  by destruct (_ <? _)%Z.
Qed.

(** Each callback keeps the engine and never lowers the best score. *)
Lemma handle_fields a e :
  game (handle a e) = game a
  /\ (getBestScore (storage a) <= getBestScore (storage (handle a e)))%Z
  /\ (forall gr s i, e = EvUpdate gr s i ->
        (s <= getBestScore (storage (handle a e)))%Z)
  /\ (forall x, In x (getAchievements (storage a)) ->
        In x (getAchievements (storage (handle a e)))).
Proof.
  destruct e as [snd|gr s info| |s]; cbn [handle].
  - repeat split; (done || lia).
  - set (a1 := match info with InfoUndo => a | InfoMerged _ => _ end).
    assert (Ha1 : game a1 = game a /\ storage a1 = storage a) by by destruct info.
    destruct Ha1 as [Hg Hs]. rewrite <- Hg, <- Hs.
    destruct (updateScore_fields s a1) as (-> & _ & _ & _ & -> & _ & ->).
    repeat split; try done; try lia. intros ??? [= _ -> _]. lia.
  - destruct (checkAchievements_keeps
                (set_storage (incrementGamesWon (storage (set_winHidden false a)))
                             (set_winHidden false a)))
      as (-> & _ & _ & _ & -> & _ & Hin).
    repeat split; try done; try (rewrite !getBestScore_best; cbn; lia).
  - destruct (checkAchievements_keeps
                (set_storage (updateBestScore s (storage (set_gameOverHidden false a))).1
                             (set_gameOverHidden false a)))
      as (-> & _ & _ & _ & -> & _ & Hin).
    cbn [game storage set_storage set_gameOverHidden] in *.
    destruct (updateBestScore_fields s (storage a)) as (Hb & _ & Ha).
    repeat split; try done; [lia|]. intros x Hx. apply Hin. by rewrite Ha.
Qed.

Lemma foldl_handle_fields evs a :
  game (foldl handle a evs) = game a
  /\ (getBestScore (storage a) <= getBestScore (storage (foldl handle a evs)))%Z
  /\ (forall gr s i, In (EvUpdate gr s i) evs ->
        (s <= getBestScore (storage (foldl handle a evs)))%Z).
Proof.
  revert a. induction evs as [|e evs IH]; intros a; [by repeat split; (done || lia)|].
  cbn [foldl]. destruct (IH (handle a e)) as (Hg & Hb & Hu).
  destruct (handle_fields a e) as (Hg' & Hb' & Hu' & _).
  split; [congruence|]. split; [lia|].
  intros gr s i [->|Hin]; [|by eapply Hu].
  specialize (Hu' gr s i eq_refl). lia.
Qed.

(** ** The engine's events when the callbacks are installed *)

Lemma slide_callbacks d st :
  onUpdate (slide d st).1.1 = onUpdate st /\ onWin (slide d st).1.1 = onWin st
  /\ onGameOver (slide d st).1.1 = onGameOver st
  /\ soundEnabled (slide d st).1.1 = soundEnabled st.
Proof. unfold slide. by case_match. Qed.

Lemma after_moved_callbacks r merged st :
  onUpdate (after_moved r merged st).1 = onUpdate st
  /\ onWin (after_moved r merged st).1 = onWin st
  /\ onGameOver (after_moved r merged st).1 = onGameOver st.
Proof.
  unfold after_moved.
  destruct (negb _ && hasValue _ _); cbn; by destruct (isGameOver _ _).
Qed.

Lemma move_callbacks d r st :
  onUpdate (move d r st).1.1 = onUpdate st /\ onWin (move d r st).1.1 = onWin st
  /\ onGameOver (move d r st).1.1 = onGameOver st.
Proof.
  destruct (over st) eqn:Hover; [by rewrite move_over|].
  rewrite move_unfold by done.
  destruct (slide_callbacks d st) as (H1 & H2 & H3 & _).
  destruct (res_moved (move_result d st)); cbn [fst]; [|done].
  destruct (after_moved_callbacks r (res_merged (move_result d st)) (slide d st).1.1)
    as (-> & -> & ->). done.
Qed.

Lemma move_none d r st g evs :
  move d r st = (g, None, evs) -> g = st /\ evs = [].
Proof.
  destruct (over st) eqn:Hover.
  - rewrite move_over by done. by intros [= <- <-].
  - rewrite move_unfold by done. by destruct (res_moved (move_result d st)).
Qed.

Lemma wins_sounds (evs : list event) :
  Forall (fun e => exists s, e = EvSound s) evs -> wins evs = 0.
Proof.
  induction 1 as [|e evs [s ->] _ IH]; [done|]. exact IH.
Qed.

(** The events of the block guarded by [if (this.moved)]. *)
Lemma after_moved_wired r merged st :
  onUpdate st = true -> onWin st = true -> onGameOver st = true ->
  exists (w o : bool),
    (after_moved r merged st).2
    = playSound st SndMove
      ++ [EvUpdate (grid (after_moved r merged st).1)
                   (score (after_moved r merged st).1) (InfoMerged merged)]
      ++ (if w then [EvWin] else [])
      ++ (if o then [EvGameOver (score (after_moved r merged st).1)] else [])
    /\ (w = true -> hasValue (grid (after_moved r merged st).1) 2048 = true).
Proof.
  intros Hu Hw Ho. unfold after_moved.
  set (st2 := addRandomTile r st).
  assert (Hu2 : onUpdate st2 = true) by done.
  assert (Hw2 : onWin st2 = true) by done.
  assert (Ho2 : onGameOver st2 = true) by done.
  assert (Hs2 : playSound st2 SndMove = playSound st SndMove) by done.
  rewrite Hs2. clearbody st2.
  destruct (negb (won st2) && hasValue (grid st2) 2048) eqn:Hc.
  - apply andb_true_iff in Hc as [_ Hh].
    destruct (isGameOver _ _); cbn [fst snd grid score set_won set_over onGameOver];
      rewrite ?Hu2, ?Hw2, ?Ho2; cbn [fire].
    + exists true, true. split; [by rewrite <- ?app_assoc, ?app_nil_r|done].
    + exists true, false. split; [by rewrite <- ?app_assoc, ?app_nil_r|done].
  - destruct (isGameOver _ _); cbn [fst snd grid score set_won set_over onGameOver];
      rewrite ?Hu2, ?Hw2, ?Ho2; cbn [fire].
    + exists false, true. split; [by rewrite <- ?app_assoc, ?app_nil_r|done].
    + exists false, false. split; [by rewrite <- ?app_assoc, ?app_nil_r|done].
Qed.

Lemma slide_sounds d st :
  Forall (fun e => exists s, e = EvSound s) (slide d st).2.
Proof.
  unfold slide. case_match; cbn [snd]; [|constructor].
  unfold playSound. destruct (soundEnabled _); repeat constructor. by eexists.
Qed.

Lemma playSound_sounds st s :
  Forall (fun e => exists s, e = EvSound s) (playSound st s).
Proof.
  unfold playSound. destruct (soundEnabled _); repeat constructor. by eexists.
Qed.

(** The events of a move that returns [true], callbacks installed: sounds,
    one update, then [onWin] and [onGameOver] when they apply. *)
Lemma move_events_wired d r st st' evs :
  onUpdate st = true -> onWin st = true -> onGameOver st = true ->
  move d r st = (st', Some true, evs) ->
  exists snds (w o : bool),
    Forall (fun e => exists s, e = EvSound s) snds
    /\ evs = snds
             ++ [EvUpdate (grid st') (score st')
                          (InfoMerged (res_merged (move_result d st)))]
             ++ (if w then [EvWin] else [])
             ++ (if o then [EvGameOver (score st')] else [])
    /\ (w = true -> hasValue (grid st') 2048 = true).
Proof.
  intros Hu Hw Ho Hmove. destruct (over st) eqn:Hover.
  { by rewrite move_over in Hmove. }
  rewrite move_unfold in Hmove by done.
  destruct (res_moved (move_result d st)); [|done].
  injection Hmove as <- <-.
  destruct (slide_callbacks d st) as (Hu1 & Hw1 & Ho1 & _).
  destruct (after_moved_wired r (res_merged (move_result d st)) (slide d st).1.1)
    as (w & o & Hev & Hh); [congruence..|].
  exists ((slide d st).2 ++ playSound (slide d st).1.1 SndMove), w, o.
  split; [apply Forall_app; split; [apply slide_sounds|apply playSound_sounds]|].
  split; [by rewrite Hev, <- !app_assoc|done].
Qed.

(** ** The page's state after the callbacks of one call *)

Lemma foldl_handle_sounds a snds :
  Forall (fun e => exists s, e = EvSound s) snds -> foldl handle a snds = a.
Proof.
  intros H. revert a. induction H as [|e evs [s ->] _ IH]; intros a; [done|].
  cbn. apply IH.
Qed.

Lemma handle_update_fields a gr s info :
  winHidden (handle a (EvUpdate gr s info)) = winHidden a
  /\ gameOverHidden (handle a (EvUpdate gr s info)) = gameOverHidden a
  /\ game (handle a (EvUpdate gr s info)) = game a
  /\ gamesWon (loadData (storage (handle a (EvUpdate gr s info))))
     = gamesWon (loadData (storage a))
  /\ getAchievements (storage (handle a (EvUpdate gr s info)))
     = getAchievements (storage a)
  /\ moveCount (handle a (EvUpdate gr s info))
     = match info with InfoMerged _ => (moveCount a + 1)%Z | InfoUndo => moveCount a end.
Proof.
  cbn [handle].
  set (a1 := match info with InfoUndo => a | InfoMerged _ => _ end).
  destruct (updateScore_fields s a1) as (-> & -> & -> & -> & _ & -> & ->).
  by destruct info.
Qed.

Lemma handle_win_fields a :
  winHidden (handle a EvWin) = false
  /\ gameOverHidden (handle a EvWin) = gameOverHidden a
  /\ game (handle a EvWin) = game a
  /\ gamesWon (loadData (storage (handle a EvWin)))
     = (gamesWon (loadData (storage a)) + 1)%Z
  /\ moveCount (handle a EvWin) = moveCount a
  /\ (hasValue (grid (game a)) 2048 = true ->
      In "first-win" (getAchievements (storage (handle a EvWin)))).
Proof.
  cbn [handle].
  set (a1 := set_storage (incrementGamesWon (storage (set_winHidden false a)))
                         (set_winHidden false a)).
  destruct (checkAchievements_keeps a1) as (Hg & Hm & Ho & Hw & _ & Hn & _).
  rewrite Hg, Hm, Ho, Hw, Hn. repeat split; try done.
  intros Hh. by apply checkAchievements_first_win.
Qed.

Lemma handle_over_fields a s :
  winHidden (handle a (EvGameOver s)) = winHidden a
  /\ gameOverHidden (handle a (EvGameOver s)) = false
  /\ game (handle a (EvGameOver s)) = game a
  /\ gamesWon (loadData (storage (handle a (EvGameOver s))))
     = gamesWon (loadData (storage a))
  /\ moveCount (handle a (EvGameOver s)) = moveCount a
  /\ (forall x, In x (getAchievements (storage a)) ->
        In x (getAchievements (storage (handle a (EvGameOver s))))).
Proof.
  cbn [handle].
  set (a1 := set_storage (updateBestScore s (storage (set_gameOverHidden false a))).1
                         (set_gameOverHidden false a)).
  destruct (checkAchievements_keeps a1) as (Hg & Hm & Ho & Hw & _ & Hn & Hin).
  destruct (updateBestScore_fields s (storage a)) as (_ & Hn' & Ha).
  rewrite Hg, Hm, Ho, Hw, Hn. repeat split; try done.
  intros x Hx. apply Hin. unfold a1. cbn [storage set_storage set_gameOverHidden].
  by rewrite Ha.
Qed.

(** ** One key press *)

Lemma keydown_unfold d r a :
  gameOverHidden a = true -> winHidden a = true ->
  keydown d r a
  = foldl handle (set_game (move d r (game a)).1.1 a) (move d r (game a)).2.
Proof.
  intros Ho Hw. unfold keydown. rewrite Ho, Hw. cbn [andb].
  by destruct (move d r (game a)) as [[g res] evs].
Qed.

(** The page after a key press that moved the board: the update callback,
    then the win callback if [onWin] fired, then the game-over callback if
    [onGameOver] fired. *)
Lemma keydown_moved d r a g evs :
  wired a -> gameOverHidden a = true -> winHidden a = true ->
  move d r (game a) = (g, Some true, evs) ->
  exists (w o : bool),
    keydown d r a
    = (let a1 := handle (set_game g a)
                        (EvUpdate (grid g) (score g)
                                  (InfoMerged (res_merged (move_result d (game a))))) in
       let a2 := if w then handle a1 EvWin else a1 in
       if o then handle a2 (EvGameOver (score g)) else a2)
    /\ (In EvWin evs -> w = true)
    /\ (w = true -> hasValue (grid g) 2048 = true).
Proof.
  intros (Hu & Hw & Ho) Hgo Hwin Hmove.
  destruct (move_events_wired _ _ _ _ _ Hu Hw Ho Hmove)
    as (snds & w & o & Hsnd & Hev & Hh).
  exists w, o. split; [|split; [|done]].
  - rewrite keydown_unfold, Hmove by done. cbn [fst snd]. rewrite Hev.
    rewrite foldl_app, (foldl_handle_sounds _ _ Hsnd).
    cbn [app foldl]. rewrite foldl_app. by destruct w, o.
  - rewrite Hev. intros [Hin|Hin]%in_app_or.
    + rewrite Forall_forall in Hsnd.
      apply list_elem_of_In, Hsnd in Hin as [s Hs]. done.
    + destruct Hin as [Hin|Hin]; [done|].
      destruct w; [done|]. destruct o; cbn in Hin; by intuition.
Qed.

(** X27. A key press while both overlays are hidden whose move fires
    [onWin] shows the win overlay, stores the achievement ['first-win'] and
    adds one to the number of games won. *)
Theorem keydown_win_recorded d r a :
  wired a -> gameOverHidden a = true -> winHidden a = true ->
  In EvWin (move d r (game a)).2 ->
  winHidden (keydown d r a) = false
  /\ In "first-win" (getAchievements (storage (keydown d r a)))
  /\ gamesWon (loadData (storage (keydown d r a)))
     = (gamesWon (loadData (storage a)) + 1)%Z.
Proof.
  intros Hwired Hgo Hwin Hin.
  destruct (move d r (game a)) as [[g res] evs] eqn:Hmove. cbn [snd] in Hin.
  destruct res as [[|]|].
  - destruct (keydown_moved d r a g evs Hwired Hgo Hwin Hmove)
      as (w & o & -> & Hw & Hh).
    rewrite (Hw Hin) in *. specialize (Hh eq_refl). cbn zeta.
    set (a1 := handle (set_game g a) _).
    destruct (handle_update_fields (set_game g a) (grid g) (score g)
                (InfoMerged (res_merged (move_result d (game a)))))
      as (_ & _ & Hg1 & Hn1 & _ & _). fold a1 in Hg1, Hn1.
    destruct (handle_win_fields a1) as (Hw2 & _ & _ & Hn2 & _ & Hf2).
    rewrite Hg1 in Hf2. specialize (Hf2 Hh).
    destruct o.
    + destruct (handle_over_fields (handle a1 EvWin) (score g))
        as (-> & _ & _ & -> & _ & Hin3).
      split; [done|]. split; [by apply Hin3|]. by rewrite Hn2, Hn1.
    + split; [done|]. split; [done|]. by rewrite Hn2, Hn1.
  - destruct (move_false _ _ _ _ _ Hmove) as (_ & _ & _ & ->). done.
  - destruct (move_none _ _ _ _ _ Hmove) as (_ & ->). done.
Qed.

Lemma keydown_win_recorded_witness :
  wired near_win_app
  /\ In EvWin (move Left first_two (game near_win_app)).2
  /\ winHidden (keydown Left first_two near_win_app) = false
  /\ In "first-win" (getAchievements (storage (keydown Left first_two near_win_app)))
  /\ gamesWon (loadData (storage (keydown Left first_two near_win_app))) = 1%Z.
Proof.
  assert (Hw : wired near_win_app) by by repeat split.
  assert (Hin : In EvWin (move Left first_two (game near_win_app)).2).
  { vm_compute. right. right. right. by left. }
  split; [exact Hw|]. split; [exact Hin|].
  exact (keydown_win_recorded Left first_two near_win_app Hw eq_refl eq_refl Hin).
Defined.

(** X28. A key press while both overlays are hidden adds one to the move
    counter when the move returns [true] and leaves it alone otherwise;
    while an overlay is shown it changes nothing at all. *)
Theorem keydown_counts_moves d r a :
  wired a ->
  (gameOverHidden a && winHidden a = true ->
   moveCount (keydown d r a)
   = (moveCount a + if bool_decide ((move d r (game a)).1.2 = Some true) then 1 else 0)%Z
   /\ game (keydown d r a) = (move d r (game a)).1.1)
  /\ (gameOverHidden a && winHidden a = false -> keydown d r a = a).
Proof.
  intros Hwired. split.
  - intros [Hgo Hwin]%andb_true_iff.
    destruct (move d r (game a)) as [[g res] evs] eqn:Hmove. cbn [fst snd].
    destruct res as [[|]|].
    + destruct (keydown_moved d r a g evs Hwired Hgo Hwin Hmove)
        as (w & o & -> & _ & _).
      rewrite bool_decide_eq_true_2 by done. cbn zeta.
      set (a1 := handle (set_game g a) _).
      destruct (handle_update_fields (set_game g a) (grid g) (score g)
                  (InfoMerged (res_merged (move_result d (game a)))))
        as (_ & _ & Hg1 & _ & _ & Hm1). fold a1 in Hg1, Hm1.
      cbn [moveCount game set_game] in Hm1, Hg1.
      assert (H2 : moveCount (if w then handle a1 EvWin else a1) = moveCount a1
                   /\ game (if w then handle a1 EvWin else a1) = game a1).
      { destruct w; [|done].
        by destruct (handle_win_fields a1) as (_ & _ & -> & _ & -> & _). }
      destruct H2 as [Hm2 Hg2]. revert Hm2 Hg2.
      generalize (if w then handle a1 EvWin else a1). intros a2 Hm2 Hg2.
      destruct o.
      * destruct (handle_over_fields a2 (score g)) as (_ & _ & -> & _ & -> & _).
        split; congruence.
      * split; congruence.
    + destruct (move_false _ _ _ _ _ Hmove) as (_ & _ & _ & ->).
      rewrite keydown_unfold, Hmove by done. cbn.
      rewrite bool_decide_eq_false_2 by done. split; [lia|done].
    + destruct (move_none _ _ _ _ _ Hmove) as (-> & ->).
      rewrite keydown_unfold, Hmove by done. cbn.
      rewrite bool_decide_eq_false_2 by done. split; [lia|done].
  - intros H. unfold keydown. by rewrite H.
Qed.

Lemma keydown_counts_moves_witness :
  wired near_win_app
  /\ moveCount (keydown Left first_two near_win_app) = 8%Z
  /\ keydown Up first_two (set_winHidden false near_win_app)
     = set_winHidden false near_win_app.
Proof.
  assert (Hw : wired near_win_app) by by repeat split.
  split; [exact Hw|]. split.
  - destruct (proj1 (keydown_counts_moves Left first_two near_win_app Hw) eq_refl)
      as [Hm _].
    rewrite Hm. by vm_compute.
  - exact (proj2 (keydown_counts_moves Up first_two
                    (set_winHidden false near_win_app) Hw) eq_refl).
Defined.

(** ** The best score covers the score *)

Lemma saveState_Forall (P : Snapshot -> Prop) st :
  Forall P (history st) -> P (snapshot_of st) -> Forall P (history (saveState st)).
Proof.
  intros Hh Hs. rewrite saveState_history.
  assert (Forall P (history st ++ [snapshot_of st])).
  { apply Forall_app. split; [done|]. by apply Forall_cons. }
  case_bool_decide; [by apply Forall_tail|done].
Qed.

Lemma undo_callbacks st :
  onUpdate (undo st).1.1 = onUpdate st /\ onWin (undo st).1.1 = onWin st
  /\ onGameOver (undo st).1.1 = onGameOver st.
Proof. unfold undo. by destruct (last (history st)). Qed.

Lemma foldl_handle_wired evs a : wired a -> wired (foldl handle a evs).
Proof.
  unfold wired. by destruct (foldl_handle_fields evs a) as (-> & _).
Qed.

Lemma act_wired x a : wired a -> wired (act a x).
Proof.
  intros Hw. destruct x as [d r| |r1 r2|]; cbn [act].
  - unfold keydown. destruct (_ && _); [|done].
    destruct (move d r (game a)) as [[g res] evs] eqn:Hmove.
    apply foldl_handle_wired. unfold wired. cbn [game set_game].
    pose proof (move_callbacks d r (game a)) as H. rewrite Hmove in H.
    cbn [fst] in H. destruct H as (-> & -> & ->). exact Hw.
  - unfold undoClick.
    destruct (undo (game a)) as [[g ok] evs] eqn:Hundo.
    assert (wired (foldl handle (set_game g a) evs)) as Hw'.
    { apply foldl_handle_wired. unfold wired. cbn [game set_game].
      pose proof (undo_callbacks (game a)) as H. rewrite Hundo in H.
      cbn [fst] in H. destruct H as (-> & -> & ->). exact Hw. }
    by destruct ok.
  - unfold startNewGame, wired.
    cbn [game set_storage].
    destruct (updateScore_fields 0
                (set_winHidden true
                   (set_gameOverHidden true
                      (set_moveCount 0 (set_game (init r1 r2 (game a)) a)))))
      as (-> & _). exact Hw.
  - exact Hw.
Qed.

Lemma best_covers_mono a a' :
  game a' = game a ->
  (getBestScore (storage a) <= getBestScore (storage a'))%Z ->
  best_covers a -> best_covers a'.
Proof.
  intros Hg Hb [Hs Hh]. unfold best_covers. rewrite Hg. split; [lia|].
  eapply Forall_impl; [exact Hh|]. cbn. intros s. lia.
Qed.

Lemma keydown_best_covers d r a :
  wired a -> best_covers a -> best_covers (keydown d r a).
Proof.
  intros (Hu & Hw & Ho) [Hs Hh]. unfold keydown. destruct (_ && _); [|done].
  destruct (move d r (game a)) as [[g res] evs] eqn:Hmove.
  destruct (foldl_handle_fields evs (set_game g a)) as (Hg & Hb & Hupd).
  cbn [game storage set_game] in Hg, Hb.
  unfold best_covers. rewrite Hg.
  assert (Hsnap : Forall (fun s => (snap_score s <= getBestScore (storage a))%Z)
                         (history (saveState (game a)))).
  { by apply saveState_Forall. }
  destruct res as [[|]|].
  - split.
    + destruct (move_events_wired d r (game a) g evs Hu Hw Ho Hmove)
        as (snds & w & o & _ & Hev & _).
      eapply Hupd. rewrite Hev. apply in_or_app. right. by left.
    + rewrite (move_true_history _ _ _ _ _ Hmove).
      eapply Forall_impl; [exact Hsnap|]. cbn. intros s. lia.
  - destruct (move_false _ _ _ _ _ Hmove) as (_ & -> & -> & _). split; [lia|].
    eapply Forall_impl; [exact Hsnap|]. cbn. intros s. lia.
  - destruct (move_none _ _ _ _ _ Hmove) as (-> & _). split; [lia|].
    eapply Forall_impl; [exact Hh|]. cbn. intros s. lia.
Qed.

Lemma undoClick_best_covers a : best_covers a -> best_covers (undoClick a).
Proof.
  intros [Hs Hh]. unfold undoClick.
  destruct (undo (game a)) as [[g ok] evs] eqn:Hundo.
  assert (Hg : best_covers (set_game g a)).
  { unfold undo in Hundo.
    destruct (last (history (game a))) as [s|] eqn:Hlast.
    - injection Hundo as <- _ _. unfold best_covers.
      cbn [game storage set_game score history set_over set_score set_grid set_history].
      apply last_Some in Hlast as [h Hlast]. rewrite Hlast in *.
      apply Forall_app in Hh as [Hh Hsn]. apply Forall_cons in Hsn as [Hsn _].
      split; [done|]. by rewrite removelast_last.
    - injection Hundo as <- _ _. by split. }
  destruct (foldl_handle_fields evs (set_game g a)) as (Hg' & Hb & _).
  pose proof (best_covers_mono _ _ Hg' Hb Hg) as H.
  by destruct ok.
Qed.

Lemma startNewGame_best_covers r1 r2 a :
  best_covers a -> best_covers (startNewGame r1 r2 a).
Proof.
  intros [Hs Hh]. unfold startNewGame.
  set (a0 := set_winHidden true
               (set_gameOverHidden true
                  (set_moveCount 0 (set_game (init r1 r2 (game a)) a)))).
  destruct (updateScore_fields 0 a0) as (Hg & _ & _ & _ & Hb & _).
  unfold best_covers. cbn [game storage set_storage].
  rewrite getBestScore_best in *. cbn [loadData incrementGamesPlayed saveData bestScore].
  rewrite <- !getBestScore_best in *. rewrite Hg, Hb.
  unfold a0. cbn [game storage set_winHidden set_gameOverHidden set_moveCount set_game].
  split; [cbn; lia|].
  change (history (init r1 r2 (game a))) with (history (game a)).
  eapply Forall_impl; [exact Hh|]. cbn. intros s. lia.
Qed.

Lemma act_best_covers x a : wired a -> best_covers a -> best_covers (act a x).
Proof.
  intros Hw Hb. destruct x as [d r| |r1 r2|]; cbn [act].
  - by apply keydown_best_covers.
  - by apply undoClick_best_covers.
  - by apply startNewGame_best_covers.
  - exact Hb.
Qed.

(** X29. Through any sequence of key presses, undo clicks, new games and
    continue clicks, the stored best score stays at or above the score of
    the engine and of every snapshot it could undo to, provided it was so
    at the start and the callbacks are installed. *)
Theorem best_score_covers_score xs a :
  wired a -> best_covers a -> best_covers (foldl act a xs).
Proof.
  revert a. induction xs as [|x xs IH]; intros a Hw Hb; [done|].
  cbn [foldl]. apply IH; [by apply act_wired|by apply act_best_covers].
Qed.

Lemma best_score_covers_score_witness :
  wired near_win_app /\ best_covers near_win_app
  /\ (score (game (foldl act near_win_app
                     [KeyDown Left first_two; Continue; KeyDown Up first_two; UndoClick]))
      <= getBestScore
           (storage (foldl act near_win_app
                       [KeyDown Left first_two; Continue; KeyDown Up first_two;
                        UndoClick])))%Z.
Proof.
  assert (Hw : wired near_win_app) by by repeat split.
  assert (Hb : best_covers near_win_app) by (split; [done|constructor]).
  split; [exact Hw|]. split; [exact Hb|].
  exact (proj1 (best_score_covers_score
                  [KeyDown Left first_two; Continue; KeyDown Up first_two; UndoClick]
                  near_win_app Hw Hb)).
Defined.

End AppFacts.
